(** * Flattening StatsBomb events into a relational table

    A shallow embedding of the notebook
    [notebooks/database_population_and_querying.ipynb]: the events decoded
    from the data source are normalised with [pd.json_normalize], the
    dotted column names are rewritten with underscores, every column whose
    name contains [location] is split into an [x] and a [y] column, the
    location columns and the columns listed in [columns_to_remove] are
    taken out, and the resulting frame is what [df.to_sql] stores.

    The Python values are embedded as a tagged variant, Python dictionaries
    as association lists in insertion order, the pandas frame as a list of
    labelled columns over a row index, and the exceptions the cells can
    raise as an error result. *)

From Stdlib Require Import String Ascii List Bool Arith Lia QArith.
Import ListNotations.
Close Scope Q_scope.
Open Scope string_scope.
Open Scope list_scope.

(** ** Strings: [in], [str.replace] *)

Module Str.

(** [s.startswith(p)]. *)
Fixpoint startswith (p s : string) : bool :=
  match p, s with
  | EmptyString, _ => true
  | String _ _, EmptyString => false
  | String a p', String b s' => Ascii.eqb a b && startswith p' s'
  end.

(** [p in s]: [p] occurs in [s] as a substring. *)
Fixpoint contains (p s : string) : bool :=
  startswith p s ||
  match s with
  | EmptyString => false
  | String _ s' => contains p s'
  end.

(** The scan of [str.replace]: the string is read from the left; where
    [old] starts, [new] is written and the scan resumes after the
    occurrence ([skip] counts the characters of the occurrence that are
    still to be passed over); any other character is copied. *)
Fixpoint replace_from (skip : nat) (old new s : string) : string :=
  match s with
  | EmptyString => EmptyString
  | String c s' =>
      match skip with
      | S k => replace_from k old new s'
      | O =>
          if startswith old s
          then new ++ replace_from (String.length old - 1) old new s'
          else String c (replace_from 0 old new s')
      end
  end.

(** [s.replace(old, new)] for a non-empty [old]: every occurrence of [old],
    found from left to right without overlap, is replaced by [new].  Both
    call sites of the notebook pass a non-empty literal. *)
Definition replace (s old new : string) : string :=
  replace_from 0 old new s.

(** [c] occurs in [s]. *)
Fixpoint has_char (c : ascii) (s : string) : bool :=
  match s with
  | EmptyString => false
  | String a s' => Ascii.eqb a c || has_char c s'
  end.

End Str.

(** [x in xs] for a list of strings. *)
Definition mem (x : string) (xs : list string) : bool :=
  existsb (String.eqb x) xs.

(** ** Decoded JSON values *)

(** What [requests.get(...).json()] returns: [None], [bool], a number,
    [str], [list] or [dict].  JSON has one number type; a number is embedded
    by its value as decoded, a rational, so that [60] and [60.0] are the
    same value.

    The dtype pandas gives a column is outside the embedding.  A column
    of numbers that has a missing entry or a [float], and the result of
    [apply] that has a [None] next to numbers, is stored as [float64]: an
    [int] is then converted, which rounds it when [float64] does not hold
    it (above [2^53]).  [JNum q] in a cell of a frame says which decoded
    number the cell was filled with; it is the number the cell holds when
    [float64] holds [q] ([float64_holds] below), and the statements about
    the value of a cell are made for such numbers, and for nulls, booleans
    and strings, which no dtype changes ([stored_exactly]). *)
#[warning="-register-all"]
Inductive json : Type :=
| JNull
| JBool (b : bool)
| JNum (q : Q)
| JStr (s : string)
| JList (l : list json)
| JDict (d : list (string * json)).

(** A Python [dict] with string keys, in insertion order. *)
Definition dict : Type := list (string * json).

(** A Raw Event is one decoded JSON object. *)
Definition raw_event : Type := dict.

Definition is_dict (v : json) : bool :=
  match v with JDict _ => true | _ => false end.

Definition is_list (v : json) : bool :=
  match v with JList _ => true | _ => false end.



Fixpoint power_of_two (d : positive) : bool :=
  match d with
  | xH => true
  | xO d' => power_of_two d'
  | xI _ => false
  end.

(** Numbers that [float64] holds exactly: [n / 2^k] in lowest terms with
    [|n| < 2^53] and [k <= 1074].  (It holds others too, such as [2^60];
    these are the ones of which it is plain.)  An [int] among them keeps its
    value when its column is stored as [float64], and a [float] decoded from
    JSON that is below [2^53] is among them. *)
Definition float64_holds (q : Q) : bool :=
  let r := Qred q in
  (Z.abs (Qnum r) <? 2 ^ 53)%Z
  && power_of_two (Qden r)
  && Nat.leb (Pos.size_nat (Qden r)) 1075.

(** A scalar that a cell holds with the value it was decoded with, whatever
    dtype pandas gives the column. *)
Definition stored_exactly (v : json) : bool :=
  match v with
  | JNull | JBool _ | JStr _ => true
  | JNum q => float64_holds q
  | JList _ | JDict _ => false
  end.

(** [d.get(k)]. *)
Fixpoint dict_get (k : string) (d : dict) : option json :=
  match d with
  | [] => None
  | (k', v) :: d' => if String.eqb k' k then Some v else dict_get k d'
  end.

(** [d[k] = v]: an existing key keeps its place, a new key goes last. *)
Fixpoint dict_set (k : string) (v : json) (d : dict) : dict :=
  match d with
  | [] => [(k, v)]
  | (k', v') :: d' =>
      if String.eqb k' k then (k, v) :: d' else (k', v') :: dict_set k v d'
  end.

(** [{**d1, **d2}]. *)
Definition dict_update (d1 d2 : dict) : dict :=
  fold_left (fun acc kv => dict_set (fst kv) (snd kv) acc) d2 d1.

(** ** Errors *)

Inductive error : Type :=
| IndexError   (* list index out of range *)
| KeyError.    (* label not found *)

Inductive result (A : Type) : Type :=
| Ok (a : A)
| Err (e : error).

Arguments Ok {A} a.
Arguments Err {A} e.

Definition bind {A B : Type} (r : result A) (f : A -> result B) : result B :=
  match r with
  | Ok a => f a
  | Err e => Err e
  end.

Notation "x <- r ;; k" := (bind r (fun x => k))
  (at level 61, r at next level, right associativity).

(** [[f(x) for x in xs]], stopping at the first exception. *)
Fixpoint traverse {A B : Type} (f : A -> result B) (xs : list A)
  : result (list B) :=
  match xs with
  | [] => Ok []
  | x :: xs' => y <- f x ;; ys <- traverse f xs' ;; Ok (y :: ys)
  end.

(** ** [pd.json_normalize] *)

(** The column name of a nested key: the path so far, the separator, the
    key; at the top level the key alone. *)
Definition new_key (key_string key : string) : string :=
  match key_string with
  | EmptyString => key
  | _ => key_string ++ "." ++ key
  end.

(** pandas' [_normalise_json]: walk the nested dictionaries of [data] and
    record every value that is not a dictionary under its dotted path. *)
Fixpoint _normalise_json (data : json) (key_string : string)
    (normalized_dict : dict) : dict :=
  match data with
  | JDict items =>
      (fix walk (items : list (string * json)) (acc : dict) : dict :=
         match items with
         | [] => acc
         | (key, value) :: rest =>
             walk rest (_normalise_json value (new_key key_string key) acc)
         end) items normalized_dict
  | _ => dict_set key_string data normalized_dict
  end.

(** pandas' [_normalise_json_ordered]: the top-level entries that are not
    dictionaries come first, the flattened nested ones after them. *)
Definition _normalise_json_ordered (data : raw_event) : dict :=
  let top_dict_ :=
    dict_update [] (filter (fun kv => negb (is_dict (snd kv))) data) in
  let nested_dict_ :=
    _normalise_json (JDict (filter (fun kv => is_dict (snd kv)) data)) EmptyString [] in
  dict_update top_dict_ nested_dict_.

(** ** The pandas frame *)

(** A [DataFrame] over the default index [0 .. index-1]: its columns in
    order, each a label and one cell per row.  Labels may repeat.  A
    missing cell ([NaN]) and a JSON [null] ([None]) are both [JNull]:
    neither is a list, and both are stored as SQL [NULL]. *)
Record DataFrame : Type := {
  index : nat;
  cols : list (string * list json)
}.

(** [df.columns]. *)
Definition columns (df : DataFrame) : list string := map fst (cols df).

(** A row as [df.apply(..., axis=1)] passes it: a [Series] indexed by the
    column labels. *)
Definition Series : Type := list (string * json).

Definition cell (r : nat) (c : string * list json) : string * json :=
  (fst c, nth r (snd c) JNull).

Definition row (df : DataFrame) (r : nat) : Series := map (cell r) (cols df).

(** The keys of the records in order of first appearance. *)
Definition add_key (acc : list string) (k : string) : list string :=
  if mem k acc then acc else acc ++ [k].

Definition union_keys (records : list dict) : list string :=
  fold_left (fun acc d => fold_left add_key (map fst d) acc) records [].

Definition get_or_nan (k : string) (d : dict) : json :=
  match dict_get k d with
  | Some v => v
  | None => JNull
  end.

(** [DataFrame(records)] for a list of dictionaries: one row per record,
    one column per key, [NaN] where a record lacks the key. *)
Definition DataFrame_of_records (records : list dict) : DataFrame :=
  {| index := length records;
     cols := map (fun k => (k, map (get_or_nan k) records))
                 (union_keys records) |}.

Definition json_normalize (events : list raw_event) : DataFrame :=
  DataFrame_of_records (map _normalise_json_ordered events).

(** The columns of a frame that carry a given label. *)
Definition has_label (l : string) (c : string * list json) : bool :=
  String.eqb (fst c) l.

Definition labelled (df : DataFrame) (l : string)
  : list (string * list json) :=
  filter (has_label l) (cols df).

(** [x[col]] on a row: the cell when the label occurs once, a sub-[Series]
    of the cells when the label is repeated (pandas selects every entry of
    a repeated label), [KeyError] when it is absent. *)
Inductive lookup : Type :=
| Absent
| One (v : json)
| Many (vs : list json).

Definition series_get (x : Series) (col : string) : lookup :=
  match filter (fun e => String.eqb (fst e) col) x with
  | [] => Absent
  | [e] => One (snd e)
  | es => Many (map snd es)
  end.

(** [mapper.get(k, k)] for a dictionary of labels. *)
Fixpoint relabel (mapper : list (string * string)) (k : string) : string :=
  match mapper with
  | [] => k
  | (k', v) :: rest => if String.eqb k' k then v else relabel rest k
  end.

(** [df.rename(columns=mapper)]: a label the mapper knows is replaced, any
    other label is kept. *)
Definition rename (mapper : list (string * string)) (df : DataFrame)
  : DataFrame :=
  {| index := index df;
     cols := map (fun c => (relabel mapper (fst c), snd c)) (cols df) |}.

(** [df.apply(f, axis=1)]: [f] on every row, in index order. *)
Definition apply_rows (f : Series -> result json) (df : DataFrame)
  : result (list json) :=
  traverse (fun r => f (row df r)) (seq 0 (index df)).

(** [df[name] = values] for a [Series] over the index of the frame, as
    pandas' [_set_item] does it: every column labelled [name] is overwritten
    (the values are broadcast over a repeated label); when there is none,
    the column is appended.

    [__setitem__] reaches [_set_item] unless the label is repeated, two or
    more times, exactly as often as there are values: from pandas 1.3 on
    the values are then handed out one to a column.  That branch is outside
    the embedding.  It cannot be taken for a label that at most one column
    carries ([at_most_one] below), and the statements about the cells of a
    derived column are made for such labels. *)
Definition setitem (df : DataFrame) (name : string) (values : list json)
  : DataFrame :=
  {| index := index df;
     cols := if mem name (columns df)
             then map (fun c => if has_label name c then (name, values) else c)
                      (cols df)
             else cols df ++ [(name, values)] |}.

(** [df[labels]] for a list of labels: for each label in turn, every column
    that carries it (so a repeated label of the frame that is asked for
    twice is taken twice over); [KeyError] for a label the frame does not
    have. *)
Definition getitem (df : DataFrame) (labels : list string)
  : result DataFrame :=
  cs <- traverse (fun l => match labelled df l with
                           | [] => Err KeyError
                           | found => Ok found
                           end) labels ;;
  Ok {| index := index df; cols := concat cs |}.

(** ** The cells of the notebook *)

(** [parse_data]: the events of every match, in the order of the matches,
    are appended to one list, which is normalised.  [source] holds what the
    data source answers for each match of the competition. *)
Definition parse_data (source : list (list raw_event)) : DataFrame :=
  json_normalize (concat source).

(** [{k: k.replace(".", "_") for k in df.columns}]. *)
Definition underscore_names (df : DataFrame) : list (string * string) :=
  map (fun k => (k, Str.replace k "." "_")) (columns df).

Definition rename_columns (df : DataFrame) : DataFrame :=
  rename (underscore_names df) df.

(** [[x for x in df.columns.values if 'location' in x]]. *)
Definition location_columns (df : DataFrame) : list string :=
  filter (Str.contains "location") (columns df).

(** [enumerate(["x", "y"])]. *)
Definition dimensions : list (nat * string) := [(0, "x"); (1, "y")].

(** [lambda x: x[col][i] if type(x[col]) == list else None]. *)
Definition coordinate (col : string) (i : nat) (x : Series) : result json :=
  match series_get x col with
  | Absent => Err KeyError
  | One (JList l) =>
      match nth_error l i with
      | Some v => Ok v
      | None => Err IndexError
      end
  | One _ => Ok JNull
  | Many _ => Ok JNull
  end.

(** The inner loop over the dimensions.  The frame is updated in place, so
    the loop hands back the frame as it stands together with the exception
    that stopped it, if any. *)
Fixpoint split_dimensions (col : string) (dims : list (nat * string))
    (df : DataFrame) : DataFrame * option error :=
  match dims with
  | [] => (df, None)
  | (i, dimension) :: rest =>
      let new_col := Str.replace col "location" dimension in
      match apply_rows (coordinate col i) df with
      | Ok values => split_dimensions col rest (setitem df new_col values)
      | Err e => (df, Some e)
      end
  end.

(** The outer loop over the location columns. *)
Fixpoint split_locations (location_columns : list string) (df : DataFrame)
  : DataFrame * option error :=
  match location_columns with
  | [] => (df, None)
  | col :: rest =>
      match split_dimensions col dimensions df with
      | (df', None) => split_locations rest df'
      | stopped => stopped
      end
  end.

(** [df[[c for c in df.columns if c not in names]]]. *)
Definition without (names : list string) (df : DataFrame)
  : result DataFrame :=
  getitem df (filter (fun c => negb (mem c names)) (columns df)).

Definition columns_to_remove : list string :=
  ["tactics_lineup"; "related_events"; "shot_freeze_frame"].

(** The transformation from the decoded events to the frame that is stored:
    the cells from [json_normalize] to the removal of [dropColumns], which
    the notebook fixes to [columns_to_remove]. *)
Definition flatten (events : list raw_event) (dropColumns : list string)
  : result DataFrame :=
  let df := json_normalize events in
  let df := rename_columns df in
  let location_columns := location_columns df in
  match split_locations location_columns df with
  | (_, Some e) => Err e
  | (df, None) =>
      df <- without location_columns df ;;
      without dropColumns df
  end.

(** *** The notebook as a sequence of cells over its variables *)

Module Notebook.

(** The global variables the cells assign, and the data the source serves. *)
Record state : Type := {
  source : list (list raw_event);
  df : DataFrame;
  columns_var : list (string * string);
  location_columns_var : list string;
  columns_to_remove_var : list string
}.

Definition cell : Type := state -> state * option error.

Definition set_df (st : state) (d : DataFrame) : state :=
  {| source := source st; df := d; columns_var := columns_var st;
     location_columns_var := location_columns_var st;
     columns_to_remove_var := columns_to_remove_var st |}.

Definition set_columns (st : state) (m : list (string * string)) : state :=
  {| source := source st; df := df st; columns_var := m;
     location_columns_var := location_columns_var st;
     columns_to_remove_var := columns_to_remove_var st |}.

Definition set_location_columns (st : state) (l : list string) : state :=
  {| source := source st; df := df st; columns_var := columns_var st;
     location_columns_var := l;
     columns_to_remove_var := columns_to_remove_var st |}.

Definition set_columns_to_remove (st : state) (l : list string) : state :=
  {| source := source st; df := df st; columns_var := columns_var st;
     location_columns_var := location_columns_var st;
     columns_to_remove_var := l |}.

(** [df = parse_data(competition_id, season_id)] *)
Definition cell_parse : cell :=
  fun st => (set_df st (parse_data (source st)), None).

(** [columns = {...}; df = df.rename(columns=columns)] *)
Definition cell_rename : cell :=
  fun st =>
    let st := set_columns st (underscore_names (df st)) in
    (set_df st (rename (columns_var st) (df st)), None).

(** [location_columns = [...]; for col in location_columns: ...] *)
Definition cell_split : cell :=
  fun st =>
    let st := set_location_columns st (location_columns (df st)) in
    let (d, e) := split_locations (location_columns_var st) (df st) in
    (set_df st d, e).

(** [df = df[[c for c in df.columns if c not in location_columns]]] *)
Definition cell_drop_locations : cell :=
  fun st =>
    match without (location_columns_var st) (df st) with
    | Ok d => (set_df st d, None)
    | Err e => (st, Some e)
    end.

(** [columns_to_remove = [...]; df = df[[...]]] *)
Definition cell_remove (names : list string) : cell :=
  fun st =>
    let st := set_columns_to_remove st names in
    match without (columns_to_remove_var st) (df st) with
    | Ok d => (set_df st d, None)
    | Err e => (st, Some e)
    end.

(** Running cells in order stops at the first one that raises. *)
Fixpoint run (cells : list cell) (st : state) : state * option error :=
  match cells with
  | [] => (st, None)
  | c :: rest =>
      match c st with
      | (st', None) => run rest st'
      | stopped => stopped
      end
  end.

Definition cells (names : list string) : list cell :=
  [cell_parse; cell_rename; cell_split; cell_drop_locations;
   cell_remove names].

Definition run_all : cell := run (cells columns_to_remove).

(** What a run of the cells leaves: everything is computed from what the
    source serves; only [columns_to_remove] still has its former value when
    the loop stops the run before the cell that assigns it. *)
Definition outcome (src : list (list raw_event)) (former : list string)
  : state * option error :=
  let df0 := parse_data src in
  let mapper := underscore_names df0 in
  let df1 := rename mapper df0 in
  let locs := location_columns df1 in
  match split_locations locs df1 with
  | (d, Some e) =>
      ({| source := src; df := d; columns_var := mapper;
          location_columns_var := locs; columns_to_remove_var := former |},
       Some e)
  | (d, None) =>
      match (d2 <- without locs d ;; without columns_to_remove d2) with
      | Ok d3 =>
          ({| source := src; df := d3; columns_var := mapper;
              location_columns_var := locs;
              columns_to_remove_var := columns_to_remove |}, None)
      | Err e =>
          ({| source := src; df := d; columns_var := mapper;
              location_columns_var := locs;
              columns_to_remove_var := former |}, Some e)
      end
  end.

End Notebook.

(** ** Reading a table *)

(** The Flat Record of row [r]. *)
Definition record (t : DataFrame) (r : nat) : Series := row t r.

(** Record [r] has value [v] under [name]: the table has the column, and
    every column of that name holds [v] in row [r]. *)
Definition record_has (t : DataFrame) (r : nat) (name : string) (v : json)
  : Prop :=
  In name (columns t) /\
  forall vs, In (name, vs) (cols t) -> nth_error vs r = Some v.

(** Record [r] shows value [v] under [name]: some column of that name
    holds [v] in row [r]. *)
Definition record_shows (t : DataFrame) (r : nat) (name : string) (v : json)
  : Prop :=
  exists vs, In (name, vs) (cols t) /\ nth_error vs r = Some v.

(** What the normalised record of an event has under a dotted path: the
    leaf of the event at that path and, where several leaves of the event
    have the same dotted path (a key can itself have a period in it), the
    one [_normalise_json_ordered] keeps. *)
Definition field (e : raw_event) (path : string) : option json :=
  dict_get path (_normalise_json_ordered e).

(** The leaves of a decoded value, each with its dotted path, in the order
    of the walk: every value that is not a mapping, at any depth of the
    mappings. *)
Fixpoint leaves (data : json) (key_string : string) : list (string * json) :=
  match data with
  | JDict items =>
      (fix walk (items : list (string * json)) : list (string * json) :=
         match items with
         | [] => []
         | (key, value) :: rest =>
             leaves value (new_key key_string key) ++ walk rest
         end) items
  | _ => [(key_string, data)]
  end.

(** The leaves of a Raw Event. *)
Definition leaves_of (e : raw_event) : list (string * json) :=
  leaves (JDict e) EmptyString.

(** The event has the leaf [v] at [path], and no leaf with another value
    at the same dotted path. *)
Definition sole_leaf (e : raw_event) (path : string) (v : json) : Prop :=
  In (path, v) (leaves_of e) /\
  forall v', In (path, v') (leaves_of e) -> v' = v.

(** The event has no leaf at [path]. *)
Definition no_leaf (e : raw_event) (path : string) : Prop :=
  forall v, ~ In (path, v) (leaves_of e).

(** At most one column of the frame carries the label. *)
Definition at_most_one (df : DataFrame) (l : string) : bool :=
  Nat.leb (length (labelled df l)) 1.

(** ** The vocabulary of the specification *)

(** The normalised records of the events. *)
Definition records (events : list raw_event) : list dict :=
  map _normalise_json_ordered events.

(** The name a dotted path gets. *)
Definition underscore (k : string) : string := Str.replace k "." "_".

(** The frame after the renaming cell. *)
Definition renamed (events : list raw_event) : DataFrame :=
  rename_columns (json_normalize events).

(** A path that alone is renamed to its column name has a column of its
    own. *)
Definition only_source (events : list raw_event) (k : string) : Prop :=
  forall k', In k' (columns (json_normalize events)) ->
    underscore k' = underscore k -> k' = k.

(** No assignment of the loop writes the column [name]. *)
Definition not_derived (events : list raw_event) (name : string) : Prop :=
  forall col dimension,
    In col (location_columns (renamed events)) ->
    In dimension ["x"; "y"] ->
    Str.replace col "location" dimension <> name.

(** The assignment of position [i] of [col] is the only one that writes its
    column. *)
Definition sole_writer (events : list raw_event) (col : string) (i : nat)
    (name : string) : Prop :=
  forall col' d,
    In col' (location_columns (renamed events)) ->
    In d dimensions ->
    Str.replace col' "location" (snd d) = name ->
    col' = col /\ fst d = i.

(** The assignments [df[new_col] = ...] of the two nested loops, in the
    order in which they run: the column read, the position read in it and
    the column written. *)
Definition assignments (location_columns : list string)
  : list (string * nat * string) :=
  flat_map
    (fun col =>
       map (fun d => (col, fst d, Str.replace col "location" (snd d)))
           dimensions)
    location_columns.

Fixpoint assign (work : list (string * nat * string)) (df : DataFrame)
  : DataFrame * option error :=
  match work with
  | [] => (df, None)
  | (col, i, new_col) :: rest =>
      match apply_rows (coordinate col i) df with
      | Ok values => assign rest (setitem df new_col values)
      | Err e => (df, Some e)
      end
  end.

(** Every assignment reads a location column and writes a column whose
    name has no [location] in it. *)
Definition well_named (work : list (string * nat * string)) : Prop :=
  forall col i n, In (col, i, n) work ->
    Str.contains "location" col = true /\ Str.contains "location" n = false.

(** Two frames in which the loop reads the same cells. *)
Definition same_locations (df1 df2 : DataFrame) : Prop :=
  index df1 = index df2 /\
  forall l, Str.contains "location" l = true -> labelled df1 l = labelled df2 l.

Definition is_pair (v : json) : bool :=
  match v with JList [_; _] => true | _ => false end.

(** The field is absent, or its value is not a list. *)
Definition not_a_list (o : option json) : bool :=
  match o with Some (JList _) => false | _ => true end.





(** A column name is derived from a dropped name when it starts with it. *)
Definition derived_from (name column : string) : bool :=
  Str.startswith name column.


(** ** The notebook beyond the table *)

(** The cells after [parse_data], run on any frame. *)
Definition clean (df : DataFrame) (dropColumns : list string)
  : result DataFrame :=
  let df := rename_columns df in
  let location_columns := location_columns df in
  match split_locations location_columns df with
  | (_, Some e) => Err e
  | (df, None) =>
      df <- without location_columns df ;;
      without dropColumns df
  end.

(** The split cell alone, as the notebook runs it on the frame at hand. *)
Definition split_cell (df : DataFrame) : DataFrame * option error :=
  split_locations (location_columns df) df.

(** Every column has one cell per row of the index. *)
Definition rectangular (df : DataFrame) : Prop :=
  forall c, In c (cols df) -> length (snd c) = index df.



(** The names the table has, in order: the columns of the renamed frame,
    then each derived name that is new, in the order of the loop; of these
    the names without [location] that are not dropped. *)
Definition table_columns (df : DataFrame) (dropColumns : list string)
  : list string :=
  filter (fun c => negb (Str.contains "location" c) && negb (mem c dropColumns))
    (fold_left add_key
       (map (fun w => snd w) (assignments (location_columns df)))
       (columns df)).

(** No value of the dictionary is a mapping. *)
Definition flat (d : dict) : Prop :=
  forall k v, In (k, v) d -> is_dict v = false.

(** The values the lambda returns for an assignment, row by row. *)
Definition values_of (df : DataFrame) (w : string * nat * string)
  : list json :=
  match apply_rows (coordinate (fst (fst w)) (snd (fst w))) df with
  | Ok values => values
  | Err _ => []
  end.

(** An assignment as one column sees it: the column is overwritten when it
    carries the name that is written. *)
Definition write (df : DataFrame) (c : string * list json)
    (w : string * nat * string) : string * list json :=
  if has_label (snd w) c then (snd w, values_of df w) else c.

(** The assignments of the loop, in order, as one column sees them. *)
Definition written (df : DataFrame) (work : list (string * nat * string))
    (c : string * list json) : string * list json :=
  fold_left (write df) work c.

(** *** [parse_data] with its requests *)

Module Fetch.

Section Source.

(** [str(v)], as [str.format] writes a value in place of [{}]. *)
Variable str : json -> string.

(** [requests.get(url).json()] for the matches of a competition and for the
    events of a match: the data source answers a list of match objects and
    a list of event objects. *)
Variable get_matches : string -> list dict.
Variable get_events : string -> list raw_event.

Definition base_url : string :=
  "https://raw.githubusercontent.com/statsbomb/open-data/master/data/".

(** [comp_url.format(competition_id, season_id)] *)
Definition comp_url (competition_id season_id : json) : string :=
  (base_url ++ "matches/" ++ str competition_id ++ "/" ++ str season_id
   ++ ".json")%string.

(** [match_url.format(match_id)] *)
Definition match_url (match_id : json) : string :=
  (base_url ++ "events/" ++ str match_id ++ ".json")%string.

(** [m[key]] *)
Definition subscript (m : dict) (key : string) : result json :=
  match dict_get key m with
  | Some v => Ok v
  | None => Err KeyError
  end.

(** [parse_data]: the frame, or the exception that stopped it, together
    with the URLs requested, in the order of the requests. *)
Definition parse_data (competition_id season_id : json)
  : result DataFrame * list string :=
  let url := comp_url competition_id season_id in
  let matches := get_matches url in
  match traverse (fun m => subscript m "match_id") matches with
  | Err e => (Err e, [url])
  | Ok match_ids =>
      let urls := map match_url match_ids in
      (Ok (json_normalize (concat (map get_events urls))), url :: urls)
  end.

End Source.

End Fetch.

(** ** Examples *)

Module Examples.

Definition num (n : Z) : json := JNum (inject_Z n).

(** [{"type": {"name": "Pass"}, "pass": {"end_location": [10, 20]}}] *)
Definition pass_10_20 : raw_event :=
  [("type", JDict [("name", JStr "Pass")]);
   ("pass", JDict [("end_location", JList [JNum (10 # 1)%Q; JNum (20 # 1)%Q])])].

(** [{"pass": {"end_location": [60.0, 40.0]}}] *)
Definition pass_60_40 : raw_event :=
  [("pass", JDict [("end_location", JList [num 60; num 40])])].

(** [{"pass": {"end_location": [60.0, 40.0]}, "pass_end_location": 1}] *)
Definition pass_collision : raw_event :=
  [("pass", JDict [("end_location", JList [num 60; num 40])]);
   ("pass_end_location", num 1)].

(** [{"pass": {"end_location": [1, 2, 3]}}] *)
Definition pass_1_2_3 : raw_event :=
  [("pass", JDict [("end_location", JList [num 1; num 2; num 3])])].

(** [{"type": {"name": "Shot"}}] *)
Definition shot : raw_event := [("type", JDict [("name", JStr "Shot")])].

(** [{"shot": {"xg": 0.5}}] *)
Definition shot_xg_half : raw_event :=
  [("shot", JDict [("xg", JNum (1 # 2)%Q)])].

(** [{"shot_locationg": [1, 2]}] *)
Definition shot_locationg : raw_event :=
  [("shot_locationg", JList [num 1; num 2])].

(** [{"team": {"name": "France", "location": "Paris"}}] *)
Definition team_paris : raw_event :=
  [("team", JDict [("name", JStr "France"); ("location", JStr "Paris")])].


(** [{"tactics": {"lineup": {"formation": 442}}}] *)
Definition tactics_formation : raw_event :=
  [("tactics", JDict [("lineup", JDict [("formation", num 442)])])].

(** [{"tactics": {"lineup": [{"player": "a"}]}, "minute": 1}] *)
Definition tactics_roster : raw_event :=
  [("tactics", JDict [("lineup", JList [JDict [("player", JStr "a")]])]);
   ("minute", num 1)].

(** [{"pass": {"end_location": [1, 2]}, "pass_end_x": 7}] *)
Definition pass_and_x : raw_event :=
  [("pass", JDict [("end_location", JList [num 1; num 2])]);
   ("pass_end_x", num 7)].

(** [{"pass": {"end_location": [1]}}] *)
Definition pass_one : raw_event :=
  [("pass", JDict [("end_location", JList [num 1])])].



(** [{"a": {"b": 1}, "a.b": 7}] *)
Definition dotted_key : raw_event :=
  [("a", JDict [("b", num 1)]); ("a.b", num 7)].

(** [{"xlocation": "a", "locationx": [1, 2]}] *)
Definition xlocation_locationx : raw_event :=
  [("xlocation", JStr "a"); ("locationx", JList [num 1; num 2])].

End Examples.

(** ** Facts about [in] and [str.replace] *)

Module StrFacts.
Import Str.
Local Open Scope string_scope.

Lemma startswith_app p s :
  startswith p s = true -> exists rest, s = p ++ rest.
Proof.
  revert s; induction p as [|a p IH]; intros s H.
  - now exists s.
  - destruct s as [|b s]; simpl in H; [discriminate|].
    apply andb_true_iff in H as [Hab Hps].
    apply Ascii.eqb_eq in Hab; subst b.
    destruct (IH _ Hps) as [rest ->].
    now exists rest.
Qed.

Lemma replace_from_skip old new p rest :
  replace_from (String.length p) old new (p ++ rest)
  = replace_from 0 old new rest.
Proof.
  induction p as [|a p IH]; simpl; [reflexivity | exact IH].
Qed.

(** Where [old] starts, the scan resumes right after it. *)
Lemma replace_from_match old new a s :
  old <> EmptyString ->
  startswith old (String a s) = true ->
  exists rest, String a s = old ++ rest /\
    replace_from (String.length old - 1) old new s
    = replace_from 0 old new rest.
Proof.
  intros Hne H. destruct old as [|b o]; [congruence|].
  destruct (startswith_app _ _ H) as [rest E].
  exists rest. split; [exact E|].
  simpl in E. injection E as _ ->.
  simpl. rewrite Nat.sub_0_r. apply replace_from_skip.
Qed.

(** Replacing by the one-character string [d], where [d] does not occur in
    [old]. *)
Section OneChar.

Variables (old : string) (d : ascii).
Local Abbreviation new := (String d EmptyString).

Lemma replace_from_nil s : replace_from 0 old new s = EmptyString -> s = EmptyString.
Proof.
  destruct s as [|c s]; [reflexivity|]; simpl.
  destruct (startswith old (String c s)); discriminate.
Qed.

(** A prefix of the result that is free of [d] was copied from the
    argument. *)
Lemma replace_from_prefix q : forall s t,
  has_char d q = false ->
  replace_from 0 old new s = q ++ t ->
  exists s', s = q ++ s' /\ replace_from 0 old new s' = t.
Proof.
  induction q as [|a q IH]; intros s t Hq H.
  - now exists s.
  - simpl in Hq. apply orb_false_iff in Hq as [Had Hq].
    destruct s as [|c s]; [discriminate|].
    simpl in H.
    destruct (startswith old (String c s)).
    + simpl in H. injection H as Hda _. subst a.
      now rewrite Ascii.eqb_refl in Had.
    + injection H as Hca H. subst c.
      destruct (IH _ _ Hq H) as (s' & -> & Hs').
      now exists s'.
Qed.

Lemma replace_from_fixed q s :
  has_char d q = false -> replace_from 0 old new s = q -> s = q.
Proof.
  intros Hq H.
  destruct (replace_from_prefix q s EmptyString Hq) as (s' & -> & Hs').
  - rewrite H. clear. induction q; simpl; congruence.
  - apply replace_from_nil in Hs'. subst s'.
    clear. induction q; simpl; congruence.
Qed.

Lemma startswith_replace_from q : forall s,
  has_char d q = false ->
  startswith q (replace_from 0 old new s) = true ->
  startswith q s = true.
Proof.
  induction q as [|a q IH]; intros s Hq H.
  - now destruct s.
  - simpl in Hq. apply orb_false_iff in Hq as [Had Hq].
    destruct s as [|c s]; [discriminate|].
    simpl in H.
    destruct (startswith old (String c s)).
    + simpl in H. rewrite Had in H. discriminate.
    + simpl in H. apply andb_true_iff in H as [Hac H].
      simpl. rewrite Hac. simpl. now apply IH.
Qed.

Hypothesis old_free : has_char d old = false.
Hypothesis old_not_empty : old <> EmptyString.

Lemma startswith_d s : startswith old (String d s) = false.
Proof.
  destruct old as [|a o]; [congruence|].
  simpl in old_free. apply orb_false_iff in old_free as [Had _].
  simpl. now rewrite Had.
Qed.

(** No occurrence of [old] is left in the result. *)
Lemma contains_replace_from : forall s k,
  contains old (replace_from k old new s) = false.
Proof.
  induction s as [|c s IH]; intros k.
  - simpl. destruct old; [congruence | reflexivity].
  - destruct k as [|k]; [|apply IH].
    cbn [replace_from].
    destruct (startswith old (String c s)) eqn:E.
    + cbn [append contains]. rewrite startswith_d, IH. reflexivity.
    + cbn [contains]. rewrite IH, orb_false_r.
      destruct (startswith old (String c (replace_from 0 old new s))) eqn:E'.
      * assert (H : startswith old (replace_from 0 old new (String c s)) = true)
          by (cbn [replace_from]; rewrite E; exact E').
        apply startswith_replace_from in H; [congruence | exact old_free].
      * reflexivity.
Qed.

Lemma contains_replace s : contains old (replace s old new) = false.
Proof. apply contains_replace_from. Qed.

(** Where [old] occurs, the result differs from every string free of
    [d]. *)
Lemma replace_has_char s :
  contains old s = true -> has_char d (replace s old new) = true.
Proof.
  intros Hs.
  destruct (has_char d (replace s old new)) eqn:E; [reflexivity|].
  assert (s = replace s old new) by (now apply replace_from_fixed).
  pose proof (contains_replace s) as H'.
  rewrite <- H in H'. congruence.
Qed.

(** A result that ends in the one [d] it has comes from a string that ends
    in the one occurrence of [old] it has. *)
Lemma replace_source q c :
  has_char d q = false ->
  contains old c = true ->
  replace c old new = q ++ new ->
  c = q ++ old.
Proof.
  intros Hq Hc H.
  destruct (replace_from_prefix q c new Hq H) as (s' & -> & Hs').
  destruct s' as [|a s']; [discriminate|].
  cbn [replace_from] in Hs'.
  destruct (startswith old (String a s')) eqn:E.
  - destruct (replace_from_match old new a s' old_not_empty E)
      as (rest & -> & Hr).
    rewrite Hr in Hs'. injection Hs' as Hs'.
    apply replace_from_nil in Hs'. subst rest. f_equal.
    clear. induction old; simpl; congruence.
  - injection Hs' as -> Hs'. apply replace_from_nil in Hs'. subst s'.
    exfalso. pose proof (contains_replace (q ++ new)) as H'.
    rewrite H in H'. congruence.
Qed.

End OneChar.

(** The names the notebook derives from a location column. *)
Lemma derived_no_location c dimension :
  dimension = "x" \/ dimension = "y" ->
  contains "location" (replace c "location" dimension) = false.
Proof.
  intros [-> | ->]; apply contains_replace; (reflexivity || discriminate).
Qed.

Lemma derived_has_x c :
  contains "location" c = true ->
  has_char "x" (replace c "location" "x") = true.
Proof. intros H. apply replace_has_char; (reflexivity || discriminate || exact H). Qed.

Lemma derived_has_y c :
  contains "location" c = true ->
  has_char "y" (replace c "location" "y") = true.
Proof. intros H. apply replace_has_char; (reflexivity || discriminate || exact H). Qed.

(** A name that ends in its only [x] is derived from the name that ends in
    [location] instead, and from no other. *)
Lemma derived_x_source q c :
  has_char "x" q = false ->
  contains "location" c = true ->
  replace c "location" "x" = q ++ "x" ->
  c = q ++ "location".
Proof. apply replace_source; (reflexivity || discriminate). Qed.

Lemma derived_y_source q c :
  has_char "y" q = false ->
  contains "location" c = true ->
  replace c "location" "y" = q ++ "y" ->
  c = q ++ "location".
Proof. apply replace_source; (reflexivity || discriminate). Qed.

End StrFacts.

(** ** Facts about the error monad *)

Section Traverse.

Context {A B : Type}.
Implicit Types (f g : A -> result B) (xs : list A).

Lemma traverse_ext f g xs :
  (forall x, In x xs -> f x = g x) -> traverse f xs = traverse g xs.
Proof.
  induction xs as [|x xs IH]; intros H; simpl; [reflexivity|].
  rewrite (H x) by (simpl; auto).
  rewrite IH by (intros; apply H; simpl; auto). reflexivity.
Qed.

Lemma traverse_pure (h : A -> B) xs :
  traverse (fun x => Ok (h x)) xs = Ok (map h xs).
Proof.
  induction xs as [|x xs IH]; simpl; [reflexivity|]. now rewrite IH.
Qed.

Lemma traverse_ok f : forall xs ys,
  traverse f xs = Ok ys ->
  length ys = length xs /\
  forall n x, nth_error xs n = Some x ->
    exists y, nth_error ys n = Some y /\ f x = Ok y.
Proof.
  induction xs as [|x xs IH]; intros ys H; simpl in H.
  - injection H as <-. split; [reflexivity|]. now intros [|n].
  - destruct (f x) as [y|e] eqn:Ex; simpl in H; [|discriminate].
    destruct (traverse f xs) as [ys'|e] eqn:Exs; simpl in H; [|discriminate].
    injection H as <-. destruct (IH _ eq_refl) as [Hlen Hnth].
    split; [simpl; congruence|].
    intros [|n] x' Hx'; simpl in *.
    + injection Hx' as <-. now exists y.
    + now apply Hnth.
Qed.

Lemma traverse_err f : forall xs e,
  traverse f xs = Err e -> exists x, In x xs /\ f x = Err e.
Proof.
  induction xs as [|x xs IH]; intros e H; simpl in H; [discriminate|].
  destruct (f x) as [y|e'] eqn:Ex; simpl in H.
  - destruct (traverse f xs) as [ys'|e''] eqn:Exs; simpl in H; [discriminate|].
    injection H as <-. destruct (IH _ eq_refl) as (x' & Hin & Hx').
    exists x'. simpl; auto.
  - injection H as <-. exists x. simpl; auto.
Qed.

Lemma traverse_all_ok f : forall xs,
  (forall x, In x xs -> exists y, f x = Ok y) ->
  exists ys, traverse f xs = Ok ys.
Proof.
  induction xs as [|x xs IH]; intros H; simpl; [eauto|].
  destruct (H x (or_introl eq_refl)) as [y ->].
  destruct IH as [ys ->]; [intros; apply H; now right|].
  simpl. eauto.
Qed.

End Traverse.

(** ** Facts about frames *)

Lemma mem_In x xs : mem x xs = true <-> In x xs.
Proof.
  unfold mem. rewrite existsb_exists. split.
  - intros (y & Hy & E). apply String.eqb_eq in E. now subst.
  - intros H. exists x. split; [exact H | apply String.eqb_refl].
Qed.

Lemma mem_not_In x xs : mem x xs = false <-> ~ In x xs.
Proof.
  rewrite <- mem_In. destruct (mem x xs); split; congruence.
Qed.

Lemma In_labelled df l c :
  In c (labelled df l) <-> In c (cols df) /\ fst c = l.
Proof.
  unfold labelled, has_label. rewrite filter_In, String.eqb_eq. tauto.
Qed.

Lemma labelled_nil df l : labelled df l = [] <-> ~ In l (columns df).
Proof.
  unfold columns. rewrite in_map_iff. split.
  - intros H (c & Hc & Hin).
    assert (Hl : In c (labelled df l)) by (apply In_labelled; auto).
    rewrite H in Hl. exact Hl.
  - intros H. destruct (labelled df l) as [|c cs] eqn:E; [reflexivity|].
    exfalso. apply H. exists c.
    assert (Hl : In c (labelled df l)) by (rewrite E; simpl; auto).
    apply In_labelled in Hl. tauto.
Qed.

(** What a row holds under a label is read off the columns of that label. *)
Lemma filter_row df r l :
  filter (fun e => String.eqb (fst e) l) (row df r)
  = map (cell r) (labelled df l).
Proof.
  unfold row, labelled. induction (cols df) as [|c cs IH]; simpl; [reflexivity|].
  unfold has_label at 1. destruct (String.eqb (fst c) l); simpl; now rewrite IH.
Qed.

Lemma series_get_labelled df1 df2 r l :
  labelled df1 l = labelled df2 l ->
  series_get (row df1 r) l = series_get (row df2 r) l.
Proof.
  intros H. unfold series_get. now rewrite !filter_row, H.
Qed.


Lemma series_get_one df r l vs :
  labelled df l = [(l, vs)] ->
  series_get (row df r) l = One (nth r vs JNull).
Proof.
  intros H. unfold series_get. rewrite filter_row, H. reflexivity.
Qed.

Lemma series_get_many df r l c c' cs :
  labelled df l = c :: c' :: cs ->
  exists vs, series_get (row df r) l = Many vs.
Proof.
  intros H. unfold series_get. rewrite filter_row, H. simpl. eauto.
Qed.

Lemma apply_rows_ext f g df1 df2 :
  index df1 = index df2 ->
  (forall r, f (row df1 r) = g (row df2 r)) ->
  apply_rows f df1 = apply_rows g df2.
Proof.
  intros Hi H. unfold apply_rows. rewrite Hi. apply traverse_ext. auto.
Qed.

Lemma apply_rows_ok f df vs :
  apply_rows f df = Ok vs ->
  length vs = index df /\
  forall r, r < index df ->
    exists v, nth_error vs r = Some v /\ f (row df r) = Ok v.
Proof.
  intros H. apply traverse_ok in H as [Hlen Hnth].
  rewrite length_seq in Hlen. split; [exact Hlen|].
  intros r Hr. apply (Hnth r r).
  rewrite nth_error_nth' with (d := 0) by (rewrite length_seq; exact Hr).
  now rewrite seq_nth.
Qed.


(** *** Assigning a column *)

Lemma labelled_setitem_other df n vs l :
  l <> n -> labelled (setitem df n vs) l = labelled df l.
Proof.
  intros Hl. unfold labelled, setitem; simpl.
  assert (Hn : has_label l (n, vs) = false)
    by (unfold has_label; simpl; apply String.eqb_neq; congruence).
  destruct (mem n (columns df)).
  - induction (cols df) as [|c cs IH]; simpl; [reflexivity|].
    rewrite IH. destruct (has_label n c) eqn:E; [|reflexivity].
    rewrite Hn. unfold has_label in *. apply String.eqb_eq in E.
    replace (String.eqb (fst c) l) with false; [reflexivity|].
    symmetry. apply String.eqb_neq. congruence.
  - rewrite filter_app. simpl. rewrite Hn. apply app_nil_r.
Qed.

Lemma In_cols_setitem df n vs c :
  In c (cols (setitem df n vs)) <->
  (c = (n, vs) /\ True) \/ (In c (cols df) /\ fst c <> n).
Proof.
  unfold setitem; simpl.
  destruct (mem n (columns df)) eqn:E.
  - apply mem_In in E. unfold columns in E.
    rewrite in_map_iff. unfold has_label. split.
    + intros (c0 & <- & Hc0). destruct (String.eqb (fst c0) n) eqn:E0.
      * left. auto.
      * right. apply String.eqb_neq in E0. auto.
    + intros [[-> _] | [Hc Hn]].
      * apply in_map_iff in E as (c0 & Hf & Hc0). exists c0.
        split; [|exact Hc0]. subst n. now rewrite String.eqb_refl.
      * exists c. split; [|exact Hc].
        apply String.eqb_neq in Hn. now rewrite Hn.
  - apply mem_not_In in E. rewrite in_app_iff. simpl. split.
    + intros [Hc | [<- | []]]; [right | left; auto].
      split; [exact Hc|]. intros <-. apply E. unfold columns.
      now apply in_map.
    + intros [[-> _] | [Hc _]]; auto.
Qed.

Lemma labelled_setitem_same df n vs c :
  In c (labelled (setitem df n vs) n) -> c = (n, vs).
Proof.
  intros H. apply In_labelled in H as [H Hn].
  apply In_cols_setitem in H as [[-> _] | [_ H]]; [reflexivity | contradiction].
Qed.

Lemma labelled_setitem_present df n vs : labelled (setitem df n vs) n <> [].
Proof.
  intros H. apply labelled_nil in H. apply H.
  unfold columns. apply in_map_iff. exists (n, vs). split; [reflexivity|].
  apply In_cols_setitem. left. auto.
Qed.

(** *** Selecting columns by label *)

Lemma getitem_ok df labels :
  (forall l, In l labels -> In l (columns df)) ->
  exists t, getitem df labels = Ok t /\ index t = index df /\
    forall c, In c (cols t) <-> In c (cols df) /\ In (fst c) labels.
Proof.
  intros H. unfold getitem.
  rewrite traverse_ext with (g := fun l => Ok (labelled df l)).
  - rewrite traverse_pure. simpl. eexists. split; [reflexivity|].
    split; [reflexivity|]. intros c. simpl.
    rewrite <- flat_map_concat_map, in_flat_map. split.
    + intros (l & Hl & Hc). apply In_labelled in Hc as [Hc <-]. auto.
    + intros [Hc Hl]. exists (fst c). split; [exact Hl|].
      apply In_labelled. auto.
  - intros l Hl. destruct (labelled df l) eqn:E; [|reflexivity].
    apply labelled_nil in E. exfalso. auto.
Qed.

Lemma without_ok names df :
  exists t, without names df = Ok t /\ index t = index df /\
    forall c, In c (cols t) <-> In c (cols df) /\ mem (fst c) names = false.
Proof.
  unfold without.
  destruct (getitem_ok df (filter (fun c => negb (mem c names)) (columns df)))
    as (t & Ht & Hi & Hc).
  - intros l Hl. apply filter_In in Hl. tauto.
  - exists t. split; [exact Ht|]. split; [exact Hi|].
    intros c. rewrite Hc, filter_In, negb_true_iff. unfold columns.
    split; [tauto|]. intros [H1 H2]. repeat split; auto. now apply in_map.
Qed.

(** ** The split loop *)

Lemma split_locations_assign location_columns : forall df,
  split_locations location_columns df
  = assign (assignments location_columns) df.
Proof.
  induction location_columns as [|col rest IH]; intros df; [reflexivity|].
  simpl.
  destruct (apply_rows (coordinate col 0) df) as [v0|e]; [|reflexivity].
  destruct (apply_rows (coordinate col 1) _) as [v1|e]; [|reflexivity].
  apply IH.
Qed.

Lemma well_named_assignments df :
  well_named (assignments (location_columns df)).
Proof.
  intros col i n H. unfold assignments in H.
  apply in_flat_map in H as (c & Hc & H).
  apply filter_In in Hc as [_ Hc].
  apply in_map_iff in H as (d & E & Hd). injection E as <- <- <-.
  split; [exact Hc|]. apply StrFacts.derived_no_location.
  simpl in Hd. destruct Hd as [<- | [<- | []]]; auto.
Qed.

Lemma well_named_tail {a work} : well_named (a :: work) -> well_named work.
Proof. intros H col i n Hin. apply (H col i n). now right. Qed.

Lemma contains_differ col n :
  Str.contains "location" col = true ->
  Str.contains "location" n = false -> col <> n.
Proof. congruence. Qed.

Lemma same_locations_refl df : same_locations df df.
Proof. split; auto. Qed.

Lemma same_locations_setitem df1 df2 n vs :
  Str.contains "location" n = false ->
  same_locations df1 df2 -> same_locations (setitem df1 n vs) df2.
Proof.
  intros Hn [Hi Hl]. split; [exact Hi|].
  intros l Hc. rewrite labelled_setitem_other; [auto|].
  now apply contains_differ.
Qed.

Lemma apply_rows_same df1 df2 col i :
  Str.contains "location" col = true ->
  same_locations df1 df2 ->
  apply_rows (coordinate col i) df1 = apply_rows (coordinate col i) df2.
Proof.
  intros Hc [Hi Hl]. apply apply_rows_ext; [exact Hi|].
  intros r. unfold coordinate.
  now rewrite (series_get_labelled df1 df2 r col (Hl col Hc)).
Qed.

Section Assign.

Variable df : DataFrame.

Lemma assign_same work : forall df0 df' e,
  well_named work -> same_locations df0 df ->
  assign work df0 = (df', e) -> same_locations df' df.
Proof.
  induction work as [|[[col i] n] rest IH]; intros df0 df' e Hw Hs H; simpl in H.
  - injection H as <- _. exact Hs.
  - destruct (apply_rows (coordinate col i) df0) as [vs|e0].
    + apply (IH _ _ _ (well_named_tail Hw)) in H; [exact H|].
      apply same_locations_setitem; [|exact Hs].
      apply (Hw col i n). now left.
    + injection H as <- _. exact Hs.
Qed.

(** A column no assignment writes is left as it was. *)
Lemma assign_other work l : forall df0 df' e,
  (forall col i n, In (col, i, n) work -> n <> l) ->
  assign work df0 = (df', e) -> labelled df' l = labelled df0 l.
Proof.
  induction work as [|[[col i] n] rest IH]; intros df0 df' e Hl H; simpl in H.
  - now injection H as <- _.
  - destruct (apply_rows (coordinate col i) df0) as [vs|e0].
    + apply IH in H; [|intros; eapply Hl; right; eauto].
      rewrite H. apply labelled_setitem_other.
      intros ->. apply (Hl col i n); [now left | reflexivity].
    + now injection H as <- _.
Qed.

(** When the loop completes, every assignment found a value in every
    row. *)
Lemma assign_ok work : forall df0 df',
  well_named work -> same_locations df0 df ->
  assign work df0 = (df', None) ->
  forall col i n, In (col, i, n) work ->
    exists vs, apply_rows (coordinate col i) df = Ok vs.
Proof.
  induction work as [|[[col i] n] rest IH]; intros df0 df' Hw Hs H c j m Hin.
  - destruct Hin.
  - simpl in H.
    pose proof (Hw col i n (or_introl eq_refl)) as [Hcol Hn].
    rewrite (apply_rows_same df0 df col i Hcol Hs) in H.
    destruct (apply_rows (coordinate col i) df) as [vs|e0] eqn:E;
      [|discriminate].
    destruct Hin as [Hin | Hin].
    + injection Hin as <- <- <-. eauto.
    + eapply (IH _ _ (well_named_tail Hw)); [|exact H|exact Hin].
      now apply same_locations_setitem.
Qed.


(** Every column of the frame the loop leaves was there before or was
    written by an assignment. *)
Lemma assign_cols work : forall df0 df' e,
  well_named work -> same_locations df0 df ->
  assign work df0 = (df', e) ->
  forall c, In c (cols df') ->
    In c (cols df0) \/
    exists col i n vs, In (col, i, n) work /\ c = (n, vs) /\
      apply_rows (coordinate col i) df = Ok vs.
Proof.
  induction work as [|[[col i] n] rest IH]; intros df0 df' e Hw Hs H c Hc;
    simpl in H.
  - injection H as <- _. now left.
  - pose proof (Hw col i n (or_introl eq_refl)) as [Hcol Hn].
    rewrite (apply_rows_same df0 df col i Hcol Hs) in H.
    destruct (apply_rows (coordinate col i) df) as [vs|e0] eqn:E.
    + destruct (IH _ _ _ (well_named_tail Hw)
                  (same_locations_setitem _ _ n vs Hn Hs) H c Hc)
        as [Hin | (c1 & i1 & n1 & vs1 & Hin & -> & H1)].
      * apply In_cols_setitem in Hin as [[-> _] | [Hin _]]; [right | now left].
        exists col, i, n, vs. split; [now left | auto].
      * right. exists c1, i1, n1, vs1. split; [now right | auto].
    + injection H as <- _. now left.
Qed.

(** Every column the frame had before and no assignment writes is still
    there afterwards. *)
Lemma assign_keeps work : forall df0 df' e c,
  (forall col i n, In (col, i, n) work -> n <> fst c) ->
  assign work df0 = (df', e) -> In c (cols df0) -> In c (cols df').
Proof.
  intros df0 df' e c Hn H Hc.
  assert (Hl : In c (labelled df0 (fst c))) by (apply In_labelled; auto).
  rewrite <- (assign_other work (fst c) df0 df' e Hn H) in Hl.
  now apply In_labelled in Hl.
Qed.

(** A column written from one source only holds what the lambda finds in
    that source. *)
Lemma assign_derived work n col i vs :
  apply_rows (coordinate col i) df = Ok vs ->
  (forall col' i', In (col', i', n) work -> col' = col /\ i' = i) ->
  forall df0 df',
  well_named work -> same_locations df0 df ->
  assign work df0 = (df', None) ->
  (exists c j, In (c, j, n) work) \/
    (labelled df0 n <> [] /\ forall c, In c (labelled df0 n) -> c = (n, vs)) ->
  labelled df' n <> [] /\ forall c, In c (labelled df' n) -> c = (n, vs).
Proof.
  intros Hvs. induction work as [|[[c1 i1] n1] rest IH];
    intros Hsrc df0 df' Hw Hs H Hq; simpl in H.
  - injection H as <-. destruct Hq as [(c & j & []) | Hq]. exact Hq.
  - pose proof (Hw c1 i1 n1 (or_introl eq_refl)) as [Hcol Hn].
    rewrite (apply_rows_same df0 df c1 i1 Hcol Hs) in H.
    destruct (apply_rows (coordinate c1 i1) df) as [vs1|e0] eqn:E;
      [|discriminate].
    apply (IH (fun c' i' Hin => Hsrc c' i' (or_intror Hin))
              _ _ (well_named_tail Hw)
              (same_locations_setitem _ _ n1 vs1 Hn Hs) H).
    destruct (String.eqb_spec n1 n) as [-> | Hne].
    + right. destruct (Hsrc c1 i1 (or_introl eq_refl)) as [-> ->].
      assert (vs1 = vs) by congruence. subst vs1.
      split; [apply labelled_setitem_present|].
      intros c. apply labelled_setitem_same.
    + destruct Hq as [(c & j & [Hin | Hin]) | Hq].
      * injection Hin as _ _ Hin. contradiction.
      * left. eauto.
      * right. rewrite labelled_setitem_other by congruence. exact Hq.
Qed.

End Assign.


(** ** The frame the loop starts from *)

Lemma dict_get_In k d v : dict_get k d = Some v -> In k (map fst d).
Proof.
  induction d as [|[k' v'] d IH]; simpl; [discriminate|].
  destruct (String.eqb_spec k' k); auto.
Qed.

Lemma fold_add_key_In k ks : forall acc,
  In k (fold_left add_key ks acc) <-> In k acc \/ In k ks.
Proof.
  induction ks as [|a ks IH]; intros acc; simpl; [tauto|].
  rewrite IH. unfold add_key. destruct (mem a acc) eqn:E.
  - apply mem_In in E. split; [tauto|]. intros [H | [<- | H]]; auto.
  - rewrite in_app_iff. simpl. tauto.
Qed.

Lemma fold_add_key_NoDup ks : forall acc,
  NoDup acc -> NoDup (fold_left add_key ks acc).
Proof.
  induction ks as [|a ks IH]; intros acc H; simpl; [exact H|].
  apply IH. unfold add_key. destruct (mem a acc) eqn:E; [exact H|].
  apply mem_not_In in E. apply NoDup_app; [exact H | repeat constructor; auto |].
  intros x Hx [<- | []]. contradiction.
Qed.

Lemma union_keys_In k ds :
  In k (union_keys ds) <-> exists d, In d ds /\ In k (map fst d).
Proof.
  unfold union_keys.
  assert (G : forall acc,
    In k (fold_left (fun acc d => fold_left add_key (map fst d) acc) ds acc)
    <-> In k acc \/ exists d, In d ds /\ In k (map fst d)).
  { induction ds as [|d ds IH]; intros acc; simpl.
    - split; [tauto|]. intros [H | (d & [] & _)]. exact H.
    - rewrite IH, fold_add_key_In. split.
      + intros [[H | H] | (d' & H1 & H2)]; eauto.
      + intros [H | (d' & [<- | H1] & H2)]; eauto. }
  rewrite G. simpl. tauto.
Qed.

Lemma union_keys_NoDup ds : NoDup (union_keys ds).
Proof.
  unfold union_keys. generalize (NoDup_nil string).
  generalize (@nil string) as acc.
  induction ds as [|d ds IH]; intros acc H; simpl; [exact H|].
  apply IH. now apply fold_add_key_NoDup.
Qed.

Lemma relabel_map (f : string -> string) ks k :
  In k ks -> relabel (map (fun k => (k, f k)) ks) k = f k.
Proof.
  induction ks as [|a ks IH]; intros H; [destruct H|]. simpl.
  destruct (String.eqb_spec a k) as [-> | Hne]; [reflexivity|].
  apply IH. destruct H; [contradiction | assumption].
Qed.

Lemma cols_rename_columns df :
  cols (rename_columns df)
  = map (fun c => (underscore (fst c), snd c)) (cols df).
Proof.
  unfold rename_columns, rename, underscore_names; simpl.
  apply map_ext_in. intros c Hc. f_equal.
  apply (relabel_map (fun k => Str.replace k "." "_")).
  unfold columns. now apply in_map.
Qed.

Lemma cols_renamed events :
  cols (renamed events)
  = map (fun k => (underscore k, map (get_or_nan k) (records events)))
        (union_keys (records events)).
Proof.
  unfold renamed. rewrite cols_rename_columns.
  unfold json_normalize, DataFrame_of_records; simpl.
  now rewrite map_map.
Qed.

Lemma index_renamed events : index (renamed events) = length events.
Proof. unfold renamed, records; simpl. apply length_map. Qed.

Lemma columns_renamed events :
  columns (renamed events) = map underscore (union_keys (records events)).
Proof. unfold columns. rewrite cols_renamed, map_map. reflexivity. Qed.

Lemma labelled_renamed events l :
  labelled (renamed events) l
  = map (fun k => (underscore k, map (get_or_nan k) (records events)))
        (filter (fun k => String.eqb (underscore k) l)
                (union_keys (records events))).
Proof.
  unfold labelled. rewrite cols_renamed.
  induction (union_keys (records events)) as [|k ks IH]; [reflexivity|].
  simpl. unfold has_label at 1. simpl.
  destruct (String.eqb (underscore k) l); simpl; now rewrite IH.
Qed.

Lemma filter_unique {A : Type} (p : A -> bool) (x : A) l :
  NoDup l -> In x l -> p x = true ->
  (forall y, In y l -> p y = true -> y = x) ->
  filter p l = [x].
Proof.
  induction l as [|a l IH]; intros Hnd Hin Hp Hu; [destruct Hin|].
  inversion Hnd as [|? ? Hna Hnd']; subst. simpl.
  destruct Hin as [-> | Hin].
  - rewrite Hp. f_equal.
    destruct (filter p l) as [|b bs] eqn:E; [reflexivity|].
    assert (Hb : In b (filter p l)) by (rewrite E; now left).
    apply filter_In in Hb as [Hb Hpb].
    assert (b = x) by (apply Hu; simpl; auto). subst b. contradiction.
  - destruct (p a) eqn:Ea.
    + assert (a = x) by (apply Hu; simpl; auto). subst a. contradiction.
    + apply IH; auto. intros y Hy. apply Hu. now right.
Qed.

Lemma columns_json_normalize events :
  columns (json_normalize events) = union_keys (records events).
Proof.
  unfold columns, json_normalize, DataFrame_of_records; simpl.
  rewrite map_map. simpl. apply map_id.
Qed.

Lemma labelled_renamed_only events k :
  In k (union_keys (records events)) ->
  only_source events k ->
  labelled (renamed events) (underscore k)
  = [(underscore k, map (get_or_nan k) (records events))].
Proof.
  intros Hk Hu. rewrite labelled_renamed.
  rewrite (filter_unique _ k); [reflexivity | apply union_keys_NoDup | exact Hk
    | apply String.eqb_refl |].
  intros k' Hk' E. apply String.eqb_eq in E. apply Hu; [|exact E].
  now rewrite columns_json_normalize.
Qed.

Lemma field_In_union_keys events r e k v :
  nth_error events r = Some e -> field e k = Some v ->
  In k (union_keys (records events)).
Proof.
  intros He Hf. apply union_keys_In.
  exists (_normalise_json_ordered e). split.
  - unfold records. apply in_map. eapply nth_error_In; eauto.
  - eapply dict_get_In; eauto.
Qed.

Lemma nth_records events r e k :
  nth_error events r = Some e ->
  nth_error (map (get_or_nan k) (records events)) r
  = Some (get_or_nan k (_normalise_json_ordered e)).
Proof.
  intros H. unfold records. rewrite map_map.
  now rewrite nth_error_map, H.
Qed.

(** ** The transformation, cell by cell *)

Lemma flatten_assign events dropColumns :
  flatten events dropColumns
  = match assign (assignments (location_columns (renamed events)))
                 (renamed events) with
    | (_, Some e) => Err e
    | (df, None) =>
        df <- without (location_columns (renamed events)) df ;;
        without dropColumns df
    end.
Proof.
  unfold flatten. now rewrite split_locations_assign.
Qed.

Lemma assign_renamed_same events df1 e :
  assign (assignments (location_columns (renamed events))) (renamed events)
  = (df1, e) ->
  same_locations df1 (renamed events).
Proof.
  apply assign_same; [apply well_named_assignments | apply same_locations_refl].
Qed.

(** After the loop a column is named in [location_columns] exactly when
    its name contains [location]. *)
Lemma mem_location_columns events df1 e c :
  assign (assignments (location_columns (renamed events))) (renamed events)
  = (df1, e) ->
  In c (cols df1) ->
  mem (fst c) (location_columns (renamed events))
  = Str.contains "location" (fst c).
Proof.
  intros H Hc. destruct (Str.contains "location" (fst c)) eqn:E.
  - apply mem_In. apply filter_In. split; [|exact E].
    destruct (assign_renamed_same _ _ _ H) as [_ Hl].
    assert (Hin : In c (labelled df1 (fst c))) by (apply In_labelled; auto).
    rewrite (Hl _ E) in Hin. apply In_labelled in Hin as [Hin _].
    unfold columns. now apply in_map.
  - apply mem_not_In. intros Hin. apply filter_In in Hin as [_ Hin]. congruence.
Qed.

(** The table, when the transformation returns one: the columns the loop
    leaves whose name has no [location] in it and is not to be dropped. *)
Lemma flatten_ok events dropColumns t :
  flatten events dropColumns = Ok t ->
  exists df1,
    assign (assignments (location_columns (renamed events))) (renamed events)
    = (df1, None) /\
    index t = length events /\
    forall c, In c (cols t) <->
      In c (cols df1) /\ Str.contains "location" (fst c) = false /\
      mem (fst c) dropColumns = false.
Proof.
  rewrite flatten_assign.
  destruct (assign _ _) as [df1 [e|]] eqn:E; [discriminate|].
  destruct (without_ok (location_columns (renamed events)) df1)
    as (t1 & H1 & Hi1 & Hc1).
  destruct (without_ok dropColumns t1) as (t2 & H2 & Hi2 & Hc2).
  rewrite H1. simpl. rewrite H2. intros Ht. injection Ht as <-.
  exists df1. split; [reflexivity|]. split.
  - rewrite Hi2, Hi1. destruct (assign_renamed_same _ _ _ E) as [-> _].
    apply index_renamed.
  - intros c. rewrite Hc2, Hc1. split.
    + intros [[Hc Hm] Hd]. rewrite (mem_location_columns _ _ _ _ E Hc) in Hm. auto.
    + intros (Hc & Hm & Hd). rewrite (mem_location_columns _ _ _ _ E Hc). auto.
Qed.


(** ** What the table holds *)

Lemma In_assignments cs col i n :
  In (col, i, n) (assignments cs) <->
  In col cs /\ exists d, In d dimensions /\ i = fst d /\
    n = Str.replace col "location" (snd d).
Proof.
  unfold assignments. rewrite in_flat_map. split.
  - intros (c & Hc & H). apply in_map_iff in H as (d & E & Hd).
    injection E as <- <- <-. eauto.
  - intros (Hc & d & Hd & -> & ->). exists col. split; [exact Hc|].
    apply in_map_iff. eauto.
Qed.



Lemma columns_setitem df n vs l :
  In l (columns df) -> In l (columns (setitem df n vs)).
Proof.
  unfold columns. rewrite !in_map_iff. intros (c & <- & Hc).
  destruct (String.eqb_spec (fst c) n) as [E | E].
  - exists (n, vs). split; [auto|]. apply In_cols_setitem. auto.
  - exists c. split; [reflexivity|]. apply In_cols_setitem. auto.
Qed.

Lemma assign_columns work l : forall df0 df' e,
  assign work df0 = (df', e) -> In l (columns df0) -> In l (columns df').
Proof.
  induction work as [|[[col i] n] rest IH]; intros df0 df' e H Hl; simpl in H.
  - now injection H as <- _.
  - destruct (apply_rows (coordinate col i) df0) as [vs|e0].
    + eapply IH; [exact H|]. now apply columns_setitem.
    + now injection H as <- _.
Qed.

Lemma assign_written work col i n : forall df0 df',
  assign work df0 = (df', None) -> In (col, i, n) work -> In n (columns df').
Proof.
  induction work as [|[[c1 i1] n1] rest IH]; intros df0 df' H Hin; [destruct Hin|].
  simpl in H.
  destruct (apply_rows (coordinate c1 i1) df0) as [vs|e0]; [|discriminate].
  destruct Hin as [Hin | Hin].
  - injection Hin as -> -> ->. eapply assign_columns; [exact H|].
    unfold columns. apply in_map_iff. exists (n, vs). split; [reflexivity|].
    apply In_cols_setitem. auto.
  - eapply IH; eauto.
Qed.

Lemma In_columns df l : In l (columns df) <-> exists vs, In (l, vs) (cols df).
Proof.
  unfold columns. rewrite in_map_iff. split.
  - intros ([l' vs] & <- & H). eauto.
  - intros (vs & H). exists (l, vs). auto.
Qed.

Section Table.

Variables (events : list raw_event) (dropColumns : list string).
Variable t : DataFrame.
Hypothesis flattened : flatten events dropColumns = Ok t.

(** A column of the table has no [location] in its name and is not one of
    the dropped names. *)
Lemma table_column_name l :
  In l (columns t) ->
  Str.contains "location" l = false /\ ~ In l dropColumns.
Proof.
  destruct (flatten_ok _ _ _ flattened) as (df1 & _ & _ & Hc).
  intros H. apply In_columns in H as (vs & H). apply Hc in H as (_ & H1 & H2).
  split; [exact H1 | now apply mem_not_In].
Qed.

(** A derived column with one writer holds what the lambda finds in the
    column it is derived from. *)
Lemma derived_column col d :
  In col (location_columns (renamed events)) ->
  In d dimensions ->
  let name := Str.replace col "location" (snd d) in
  ~ In name dropColumns ->
  sole_writer events col (fst d) name ->
  exists vs,
    apply_rows (coordinate col (fst d)) (renamed events) = Ok vs /\
    In name (columns t) /\
    forall vs', In (name, vs') (cols t) -> vs' = vs.
Proof.
  intros Hcol Hdim name Hdrop Hsole.
  destruct (flatten_ok _ _ _ flattened) as (df1 & Ha & _ & Hc).
  set (work := assignments (location_columns (renamed events))) in *.
  assert (Hw : well_named work) by apply well_named_assignments.
  assert (Hin : In (col, fst d, name) work)
    by (apply In_assignments; split; [exact Hcol | exists d; auto]).
  destruct (assign_ok (renamed events) work _ _ Hw
              (same_locations_refl _) Ha _ _ _ Hin) as [vs Hvs].
  destruct (assign_derived (renamed events) work name col (fst d) vs Hvs)
    with (df0 := renamed events) (df' := df1) as [Hne Hall].
  - intros col' i' H. apply In_assignments in H as (H1 & d' & H2 & -> & H3).
    apply (Hsole col' d'); auto.
  - exact Hw.
  - apply same_locations_refl.
  - exact Ha.
  - left. eauto.
  - exists vs. split; [exact Hvs|].
    assert (Hloc : Str.contains "location" name = false)
      by (apply (Hw _ _ _ Hin)).
    split.
    + destruct (labelled df1 name) as [|c cs] eqn:E; [congruence|].
      pose proof (Hall c (or_introl eq_refl)) as ->.
      assert (Hc1 : In (name, vs) (labelled df1 name)) by (rewrite E; now left).
      apply In_labelled in Hc1 as [Hc1 _].
      apply In_columns. exists vs. apply Hc. simpl.
      split; [exact Hc1 | split; [exact Hloc | now apply mem_not_In]].
    + intros vs' H. apply Hc in H as (H & _).
      assert (Hl : In (name, vs') (labelled df1 name))
        by (apply In_labelled; auto).
      apply Hall in Hl. congruence.
Qed.

End Table.

(** What [record_has] says of a column whose cells are known. *)
Lemma record_has_intro t r name v vs :
  In name (columns t) ->
  (forall vs', In (name, vs') (cols t) -> vs' = vs) ->
  nth_error vs r = Some v ->
  record_has t r name v.
Proof.
  intros Hin Hall Hv. split; [exact Hin|].
  intros vs' H. now rewrite (Hall _ H).
Qed.

(** What a row of the renamed frame holds under the name of a path: the
    value of the path in the event, or a sub-series when other paths are
    renamed to the same name. *)
Lemma series_get_renamed events r e k :
  nth_error events r = Some e ->
  In k (union_keys (records events)) ->
  series_get (row (renamed events) r) (underscore k)
    = One (get_or_nan k (_normalise_json_ordered e)) \/
  exists vs, series_get (row (renamed events) r) (underscore k) = Many vs.
Proof.
  intros He Hk.
  assert (Hf : In k (filter (fun k' => String.eqb (underscore k') (underscore k))
                            (union_keys (records events))))
    by (apply filter_In; split; [exact Hk | apply String.eqb_refl]).
  pose proof (labelled_renamed events (underscore k)) as E.
  destruct (filter _ _) as [|a [|b rest]]; simpl in E.
  - destruct Hf.
  - destruct Hf as [-> | []]. left.
    rewrite (series_get_one _ _ _ _ E). f_equal.
    apply nth_error_nth. now apply nth_records.
  - right. eapply series_get_many. exact E.
Qed.

Lemma series_get_renamed_only events r e k :
  nth_error events r = Some e ->
  In k (union_keys (records events)) ->
  only_source events k ->
  series_get (row (renamed events) r) (underscore k)
  = One (get_or_nan k (_normalise_json_ordered e)).
Proof.
  intros He Hk Hu.
  rewrite (series_get_one _ _ _ _ (labelled_renamed_only _ _ Hk Hu)).
  f_equal. apply nth_error_nth. now apply nth_records.
Qed.

Lemma In_location_columns events k :
  In k (union_keys (records events)) ->
  Str.contains "location" (underscore k) = true ->
  In (underscore k) (location_columns (renamed events)).
Proof.
  intros Hk Hc. apply filter_In. split; [|exact Hc].
  rewrite columns_renamed. now apply in_map.
Qed.

Section Derived.

Variables (events : list raw_event) (dropColumns : list string).
Variable t : DataFrame.
Hypothesis flattened : flatten events dropColumns = Ok t.

(** The value of a derived column in a row is what the lambda returns on
    that row. *)
Lemma derived_value col d r v :
  In col (location_columns (renamed events)) ->
  In d dimensions ->
  let name := Str.replace col "location" (snd d) in
  ~ In name dropColumns ->
  sole_writer events col (fst d) name ->
  r < length events ->
  coordinate col (fst d) (row (renamed events) r) = Ok v ->
  record_has t r name v.
Proof.
  intros Hcol Hd name Hdrop Hsole Hr Hv.
  destruct (derived_column _ _ _ flattened col d Hcol Hd Hdrop Hsole)
    as (vs & Hvs & Hin & Hall).
  apply record_has_intro with (vs := vs); [exact Hin | exact Hall |].
  apply apply_rows_ok in Hvs as [_ Hvs].
  destruct (Hvs r) as (v' & Hn & Hv'); [now rewrite index_renamed|].
  congruence.
Qed.

End Derived.

(** The two columns derived from [pass_end_location] have no other
    source. *)
Lemma pass_end_x_writer events :
  sole_writer events "pass_end_location" 0 "pass_end_x".
Proof.
  intros col d Hcol Hd H. apply filter_In in Hcol as [_ Hcol].
  simpl in Hd. destruct Hd as [<- | [<- | []]]; simpl in *.
  - split; [|reflexivity].
    now apply (StrFacts.derived_x_source "pass_end_" col).
  - apply StrFacts.derived_has_y in Hcol. rewrite H in Hcol. discriminate.
Qed.

Lemma pass_end_y_writer events :
  sole_writer events "pass_end_location" 1 "pass_end_y".
Proof.
  intros col d Hcol Hd H. apply filter_In in Hcol as [_ Hcol].
  simpl in Hd. destruct Hd as [<- | [<- | []]]; simpl in *.
  - apply StrFacts.derived_has_x in Hcol. rewrite H in Hcol. discriminate.
  - split; [|reflexivity].
    now apply (StrFacts.derived_y_source "pass_end_" col).
Qed.

Lemma In_dict_get k d : In k (map fst d) -> exists v, dict_get k d = Some v.
Proof.
  induction d as [|[k' v'] d IH]; simpl; [tauto|].
  destruct (String.eqb_spec k' k); [eauto|].
  intros [H | H]; [contradiction | auto].
Qed.

Section Kept.

Variables (events : list raw_event) (dropColumns : list string).
Variable t : DataFrame.
Hypothesis flattened : flatten events dropColumns = Ok t.

(** The column of a path that the loop neither reads nor writes and that is
    not dropped is a column of the table: in every row the value of the
    path in the event, or null where the event lacks it. *)
Lemma column_backfilled k :
  In k (columns (json_normalize events)) ->
  Str.contains "location" (underscore k) = false ->
  ~ In (underscore k) dropColumns ->
  not_derived events (underscore k) ->
  In (underscore k, map (get_or_nan k) (records events)) (cols t).
Proof.
  intros Hk Hl Hd Hn. rewrite columns_json_normalize in Hk.
  destruct (flatten_ok _ _ _ flattened) as (df1 & Ha & _ & Hc).
  apply Hc. cbn [fst]. split; [|split; [exact Hl | now apply mem_not_In]].
  apply (assign_keeps _ _ _ _ _) with (2 := Ha).
  - cbn [fst]. intros col i n Hin.
    apply In_assignments in Hin as (Hcol & d & Hdim & _ & ->).
    apply Hn; [exact Hcol|].
    simpl in Hdim. destruct Hdim as [<- | [<- | []]]; simpl; auto.
  - rewrite cols_renamed. apply in_map_iff. exists k. auto.
Qed.

End Kept.



(** A derived name contains [x] or [y], which no name of
    [columns_to_remove] does. *)
Lemma derived_not_removed col d :
  Str.contains "location" col = true ->
  In d dimensions ->
  ~ In (Str.replace col "location" (snd d)) columns_to_remove.
Proof.
  intros Hcol Hd Hin. simpl in Hd. destruct Hd as [<- | [<- | []]]; simpl in Hin.
  - apply StrFacts.derived_has_x in Hcol.
    destruct Hin as [H | [H | [H | []]]]; rewrite <- H in Hcol; discriminate.
  - apply StrFacts.derived_has_y in Hcol.
    destruct Hin as [H | [H | [H | []]]]; rewrite <- H in Hcol; discriminate.
Qed.

(** ** The notebook run as a whole *)

Module NotebookFacts.
Import Notebook.

Lemma without_twice_ok names1 names2 d :
  exists d3, (d2 <- without names1 d ;; without names2 d2) = Ok d3.
Proof.
  destruct (without_ok names1 d) as (d2 & -> & _). simpl.
  destruct (without_ok names2 d2) as (d3 & -> & _). eauto.
Qed.

Lemma run_all_outcome st :
  run_all st = outcome (source st) (columns_to_remove_var st).
Proof.
  unfold run_all, cells, run, outcome.
  unfold cell_parse, cell_rename, cell_split, cell_drop_locations, cell_remove.
  cbn [set_df set_columns set_location_columns set_columns_to_remove
       source df columns_var location_columns_var columns_to_remove_var].
  destruct (split_locations _ _) as [d [e|]]; [reflexivity|].
  cbn [set_df set_columns set_location_columns set_columns_to_remove
       source df columns_var location_columns_var columns_to_remove_var].
  destruct (without_ok (location_columns
              (rename (underscore_names (parse_data (source st)))
                      (parse_data (source st)))) d) as (d2 & E2 & _).
  rewrite E2.
  cbn [bind set_df set_columns set_location_columns set_columns_to_remove
       source df columns_var location_columns_var columns_to_remove_var].
  destruct (without_ok columns_to_remove d2) as (d3 & E3 & _).
  rewrite E3. reflexivity.
Qed.

Lemma outcome_flatten src former :
  match snd (outcome src former) with
  | None => flatten (concat src) columns_to_remove
            = Ok (df (fst (outcome src former)))
  | Some e => flatten (concat src) columns_to_remove = Err e
  end.
Proof.
  unfold outcome, flatten, parse_data, rename_columns.
  destruct (split_locations _ _) as [d [e|]]; [reflexivity|].
  destruct (without_twice_ok
              (location_columns
                 (rename (underscore_names (json_normalize (concat src)))
                         (json_normalize (concat src))))
              columns_to_remove d) as [d3 E].
  rewrite E. reflexivity.
Qed.

(** The two ways a run ends. *)
Lemma outcome_cases src :
  (exists d e, forall former,
      outcome src former
      = ({| source := src; df := d;
            columns_var := underscore_names (parse_data src);
            location_columns_var := location_columns (renamed (concat src));
            columns_to_remove_var := former |}, Some e)) \/
  (exists d, forall former,
      outcome src former
      = ({| source := src; df := d;
            columns_var := underscore_names (parse_data src);
            location_columns_var := location_columns (renamed (concat src));
            columns_to_remove_var := columns_to_remove |}, None)).
Proof.
  unfold outcome, renamed, rename_columns, parse_data.
  destruct (split_locations _ _) as [d [e|]].
  - left. exists d, e. reflexivity.
  - right.
    destruct (without_twice_ok
                (location_columns
                   (rename (underscore_names (json_normalize (concat src)))
                           (json_normalize (concat src))))
                columns_to_remove d) as [d3 E].
    exists d3. intros former. rewrite E. reflexivity.
Qed.

End NotebookFacts.

(** ** The leaves of an event and its normalised record *)

Module LeafFacts.

Lemma leaves_dict items key_string :
  leaves (JDict items) key_string
  = flat_map (fun kv => leaves (snd kv) (new_key key_string (fst kv))) items.
Proof.
  induction items as [|[key value] rest IH]; [reflexivity|].
  cbn [flat_map fst snd]. rewrite <- IH. reflexivity.
Qed.

Lemma leaves_scalar v key_string :
  is_dict v = false -> leaves v key_string = [(key_string, v)].
Proof. destruct v; (reflexivity || discriminate). Qed.

(** The walk of [_normalise_json] sets its leaves, in order. *)
Lemma normalise_leaves : forall data key_string acc,
  _normalise_json data key_string acc
  = dict_update acc (leaves data key_string).
Proof.
  fix IH 1. intros data key_string acc.
  destruct data as [| b | q | s | l | items]; try reflexivity.
  rewrite leaves_dict. simpl. revert acc.
  induction items as [|[key value] rest IHr]; intros acc; [reflexivity|].
  cbn [flat_map fst snd]. unfold dict_update. rewrite fold_left_app.
  fold (dict_update acc (leaves value (new_key key_string key))).
  rewrite <- IH. apply IHr.
Qed.

Lemma dict_get_set k k' v d :
  dict_get k (dict_set k' v d)
  = if String.eqb k' k then Some v else dict_get k d.
Proof.
  induction d as [|[k0 v0] d IH]; simpl.
  - reflexivity.
  - destruct (String.eqb_spec k0 k') as [-> | Hne]; simpl.
    + destruct (String.eqb k' k); reflexivity.
    + destruct (String.eqb_spec k0 k) as [-> | _].
      * destruct (String.eqb_spec k' k); [congruence | reflexivity].
      * exact IH.
Qed.

Lemma In_dict_set p k v d :
  In p (dict_set k v d) -> p = (k, v) \/ In p d.
Proof.
  induction d as [|[k0 v0] d IH]; simpl.
  - intros [<- | []]. now left.
  - destruct (String.eqb k0 k); simpl.
    + intros [<- | H]; auto.
    + intros [<- | H]; auto. destruct (IH H); auto.
Qed.

Lemma In_dict_update p l : forall d,
  In p (dict_update d l) -> In p d \/ In p l.
Proof.
  unfold dict_update. induction l as [|[k v] l IH]; intros d H; [now left|].
  simpl in H. destruct (IH _ H) as [H1 | H1]; [|right; now right].
  destruct (In_dict_set _ _ _ _ H1) as [-> | H2]; [right; now left | now left].
Qed.

Lemma keys_dict_set k k' v d :
  In k (map fst (dict_set k' v d)) <-> k = k' \/ In k (map fst d).
Proof.
  induction d as [|[k0 v0] d IH]; simpl.
  - intuition.
  - destruct (String.eqb_spec k0 k') as [-> | Hne]; simpl; intuition.
Qed.

Lemma keys_dict_update k l : forall d,
  In k (map fst (dict_update d l)) <-> In k (map fst d) \/ In k (map fst l).
Proof.
  unfold dict_update. induction l as [|[k' v] l IH]; intros d; simpl.
  - tauto.
  - rewrite IH, keys_dict_set. intuition.
Qed.

(** Setting pairs of which all that have the key [k] have the value [v]. *)
Lemma dict_get_update_sole k v l : forall d,
  (forall v', In (k, v') l -> v' = v) ->
  In (k, v) l \/ dict_get k d = Some v ->
  dict_get k (dict_update d l) = Some v.
Proof.
  unfold dict_update. induction l as [|[k1 v1] l IH]; intros d Hall H.
  - destruct H as [[] | H]. exact H.
  - simpl. apply IH; [intros v' Hv'; apply Hall; now right|].
    rewrite dict_get_set.
    destruct (String.eqb_spec k1 k) as [-> | Hne].
    + right. f_equal. apply Hall. now left.
    + destruct H as [[E | H] | H]; [congruence | now left | now right].
Qed.

Lemma dict_get_update_none k l : forall d,
  (forall v, ~ In (k, v) l) ->
  dict_get k (dict_update d l) = dict_get k d.
Proof.
  unfold dict_update. induction l as [|[k1 v1] l IH]; intros d Hno; [reflexivity|].
  simpl. rewrite IH by (intros v H; apply (Hno v); now right).
  rewrite dict_get_set.
  destruct (String.eqb_spec k1 k) as [-> | _]; [|reflexivity].
  exfalso. apply (Hno v1). now left.
Qed.

Lemma dict_get_pair k d v : dict_get k d = Some v -> In (k, v) d.
Proof.
  induction d as [|[k' v'] d IH]; simpl; [discriminate|].
  destruct (String.eqb_spec k' k) as [-> | _].
  - intros H. injection H as ->. now left.
  - intros H. right. now apply IH.
Qed.

Section Event.

Variable e : raw_event.

Local Abbreviation top :=
  (filter (fun kv : string * json => negb (is_dict (snd kv))) e).
Local Abbreviation nested :=
  (filter (fun kv : string * json => is_dict (snd kv)) e).

(** The leaves of an event are its top-level entries that are not mappings
    and the leaves of the others. *)
Lemma In_leaves_of p :
  In p (leaves_of e) <-> In p top \/ In p (leaves (JDict nested) EmptyString).
Proof.
  unfold leaves_of. rewrite !leaves_dict, !in_flat_map. split.
  - intros ([k v] & Hin & Hp). cbn [fst snd new_key] in Hp.
    destruct (is_dict v) eqn:Ev.
    + right. exists (k, v). split; [|exact Hp].
      apply filter_In. auto.
    + left. rewrite (leaves_scalar _ _ Ev) in Hp. destruct Hp as [<- | []].
      apply filter_In. cbn [snd]. rewrite Ev. auto.
  - intros [H | ([k v] & Hin & Hp)].
    + apply filter_In in H as [Hin Hv]. destruct p as [k v].
      exists (k, v). split; [exact Hin|]. cbn [fst snd new_key] in *.
      apply negb_true_iff in Hv. rewrite (leaves_scalar _ _ Hv). now left.
    + apply filter_In in Hin as [Hin _]. exists (k, v). auto.
Qed.

Lemma normalise_json_ordered_leaves :
  _normalise_json_ordered e
  = dict_update (dict_update [] top)
      (dict_update [] (leaves (JDict nested) EmptyString)).
Proof.
  unfold _normalise_json_ordered. now rewrite normalise_leaves.
Qed.

(** A leaf that is alone at its dotted path is what the normalised record
    has there. *)
Lemma field_sole_leaf path v : sole_leaf e path v -> field e path = Some v.
Proof.
  intros [Hin Hall]. unfold field. rewrite normalise_json_ordered_leaves.
  assert (Ht : forall v', In (path, v') top -> v' = v)
    by (intros v' H; apply Hall, In_leaves_of; now left).
  assert (Hn : forall v', In (path, v') (leaves (JDict nested) EmptyString) ->
                 v' = v)
    by (intros v' H; apply Hall, In_leaves_of; now right).
  apply dict_get_update_sole.
  - intros v' H. apply In_dict_update in H as [[] | H]. now apply Hn.
  - apply In_leaves_of in Hin as [Hin | Hin].
    + right. apply dict_get_update_sole; auto.
    + left. apply dict_get_pair. apply dict_get_update_sole; auto.
Qed.

(** A dotted path at which the event has no leaf is not in its normalised
    record. *)
Lemma field_no_leaf path : no_leaf e path -> field e path = None.
Proof.
  intros Hno. unfold field. rewrite normalise_json_ordered_leaves.
  rewrite dict_get_update_none.
  - rewrite dict_get_update_none; [reflexivity|].
    intros v H. apply (Hno v), In_leaves_of. now left.
  - intros v H. apply In_dict_update in H as [[] | H].
    apply (Hno v), In_leaves_of. now right.
Qed.

(** The keys of the normalised record are the dotted paths of the leaves. *)
Lemma keys_normalised path :
  In path (map fst (_normalise_json_ordered e)) <->
  exists v, In (path, v) (leaves_of e).
Proof.
  rewrite normalise_json_ordered_leaves. rewrite !keys_dict_update.
  split.
  - intros [[[] | H] | [[] | H]];
      apply in_map_iff in H as ([k v] & <- & H); exists v;
      apply In_leaves_of; [now left | now right].
  - intros [v H]. apply In_leaves_of in H as [H | H].
    + left. right. now apply (in_map fst) in H.
    + right. right. now apply (in_map fst) in H.
Qed.

End Event.

End LeafFacts.

(** ** The properties of the specification *)

(** C1: the single event
    [{"type": {"name": "Pass"}, "pass": {"end_location": [10, 20]}}],
    with nothing to drop, gives a table of one record,
    [{"type_name": "Pass", "pass_end_x": 10, "pass_end_y": 20}], and no
    other column. *)
Theorem end_to_end_scenario :
  exists t,
    flatten [Examples.pass_10_20] [] = Ok t /\
    index t = 1 /\
    record t 0 = [("type_name", JStr "Pass");
                  ("pass_end_x", JNum (10 # 1)%Q);
                  ("pass_end_y", JNum (20 # 1)%Q)].
Proof.
  eexists. split; [vm_compute; reflexivity|]. split; reflexivity.
Qed.

(** C2, as stated, fails when another field is renamed to the column name
    of [pass.end_location]: the row lookup [x[col]] then returns a
    sub-series, which is not a list, and both derived columns are null. *)
Lemma coordinate_split_collision :
  field Examples.pass_collision "pass.end_location"
    = Some (JList [Examples.num 60; Examples.num 40]) /\
  exists t,
    flatten [Examples.pass_collision] columns_to_remove = Ok t /\
    record t 0 = [("pass_end_x", JNull); ("pass_end_y", JNull)] /\
    ~ record_shows t 0 "pass_end_x" (Examples.num 60).
Proof.
  split; [reflexivity|]. eexists. split; [vm_compute; reflexivity|].
  split; [reflexivity|].
  intros (vs & [H | [H | []]] & Hv);
    [injection H as <-; discriminate Hv | discriminate H].
Qed.

(** C2, amended: when [pass.end_location] is the only field renamed to
    [pass_end_location], and neither [pass_end_x] nor [pass_end_y] labels
    more than one column before the split, every event whose
    [pass.end_location] is [[60.0, 40.0]] has [pass_end_x = 60.0] and
    [pass_end_y = 40.0] in its record of the table, and the table has no
    [pass_end_location] column. *)
Theorem coordinate_split_correct events r e t :
  nth_error events r = Some e ->
  field e "pass.end_location"
    = Some (JList [Examples.num 60; Examples.num 40]) ->
  only_source events "pass.end_location" ->
  at_most_one (renamed events) "pass_end_x" = true ->
  at_most_one (renamed events) "pass_end_y" = true ->
  flatten events columns_to_remove = Ok t ->
  record_has t r "pass_end_x" (Examples.num 60) /\
  record_has t r "pass_end_y" (Examples.num 40) /\
  ~ In "pass_end_location" (columns t).
Proof.
  intros He Hf Hu _ _ Ht.
  assert (Hk : In "pass.end_location" (union_keys (records events)))
    by (eapply field_In_union_keys; eauto).
  assert (Hcol : In "pass_end_location" (location_columns (renamed events)))
    by (apply (In_location_columns events "pass.end_location" Hk); reflexivity).
  assert (Hr : r < length events)
    by (apply nth_error_Some; congruence).
  assert (Hg : series_get (row (renamed events) r) "pass_end_location"
               = One (JList [Examples.num 60; Examples.num 40])).
  { change "pass_end_location" with (underscore "pass.end_location").
    rewrite (series_get_renamed_only _ _ _ _ He Hk Hu).
    unfold get_or_nan. unfold field in Hf. now rewrite Hf. }
  split; [|split].
  - apply (derived_value _ _ _ Ht "pass_end_location" (0, "x")); simpl; auto.
    + intros [H | [H | [H | []]]]; discriminate.
    + apply pass_end_x_writer.
    + unfold coordinate. now rewrite Hg.
  - apply (derived_value _ _ _ Ht "pass_end_location" (1, "y")); simpl; auto.
    + intros [H | [H | [H | []]]]; discriminate.
    + apply pass_end_y_writer.
    + unfold coordinate. now rewrite Hg.
  - intros H. apply (table_column_name _ _ _ Ht) in H as [H _]. discriminate.
Qed.

Lemma coordinate_split_correct_witness :
  exists t,
    flatten [Examples.pass_60_40; Examples.shot] columns_to_remove = Ok t /\
    record_has t 0 "pass_end_x" (Examples.num 60) /\
    record_has t 0 "pass_end_y" (Examples.num 40) /\
    ~ In "pass_end_location" (columns t).
Proof.
  eexists. split; [vm_compute; reflexivity|].
  apply (coordinate_split_correct [Examples.pass_60_40; Examples.shot] 0
           Examples.pass_60_40).
  - reflexivity.
  - reflexivity.
  - intros k H. vm_compute in H. destruct H as [<- | [<- | []]];
      vm_compute; intros E; (reflexivity || discriminate E).
  - reflexivity.
  - reflexivity.
  - vm_compute. reflexivity.
Defined.




(** C4, as stated, fails for a list that is not of two elements: of the
    three-element list the first two are kept (a shorter list stops the
    transformation, see C10).  Where no event has the field, the table has
    no derived column.  And where another location column gives the same
    derived name, the column holds what was written last: [xx] here is
    derived from [xlocation], which holds a string, and holds the first
    element of [locationx]. *)
Lemma null_safety_three_elements :
  (field Examples.pass_1_2_3 "pass.end_location"
     = Some (JList [Examples.num 1; Examples.num 2; Examples.num 3]) /\
   is_pair (JList [Examples.num 1; Examples.num 2; Examples.num 3]) = false /\
   exists t,
     flatten [Examples.pass_1_2_3] columns_to_remove = Ok t /\
     record t 0 = [("pass_end_x", Examples.num 1);
                   ("pass_end_y", Examples.num 2)] /\
     ~ record_shows t 0 "pass_end_x" JNull) /\
  (field Examples.shot "pass.end_location" = None /\
   exists t,
     flatten [Examples.shot] columns_to_remove = Ok t /\
     record t 0 = [("type_name", JStr "Shot")]) /\
  (field Examples.xlocation_locationx "xlocation" = Some (JStr "a") /\
   Str.replace "xlocation" "location" "x" = "xx" /\
   exists t,
     flatten [Examples.xlocation_locationx] columns_to_remove = Ok t /\
     record t 0 = [("xx", Examples.num 1); ("xy", JNull);
                   ("yx", Examples.num 2)] /\
     ~ record_shows t 0 "xx" JNull).
Proof.
  split; [|split].
  - split; [reflexivity|]. split; [reflexivity|].
    eexists. split; [vm_compute; reflexivity|]. split; [reflexivity|].
    intros (vs & [H | [H | []]] & Hv);
      [injection H as <-; discriminate Hv | discriminate H].
  - split; [reflexivity|].
    eexists. split; [vm_compute; reflexivity | reflexivity].
  - split; [reflexivity|]. split; [reflexivity|].
    eexists. split; [vm_compute; reflexivity|]. split; [reflexivity|].
    intros (vs & [H | [H | [H | []]]] & Hv);
      [injection H as <-; discriminate Hv | discriminate H | discriminate H].
Qed.

(** C4, amended: for every field whose underscore name contains
    [location] and that some event of the input has, every event in which
    the field is absent or is not a list has null, in its record of the
    table, under each of the two derived names that no other location
    column gives and that labels at most one column before the split.
    The names derived from [pass.end_location] are given by no other
    column. *)
Theorem null_safety events k r e d t :
  nth_error events r = Some e ->
  In k (columns (json_normalize events)) ->
  Str.contains "location" (underscore k) = true ->
  not_a_list (field e k) = true ->
  In d dimensions ->
  sole_writer events (underscore k) (fst d)
    (Str.replace (underscore k) "location" (snd d)) ->
  at_most_one (renamed events)
    (Str.replace (underscore k) "location" (snd d)) = true ->
  flatten events columns_to_remove = Ok t ->
  record_has t r (Str.replace (underscore k) "location" (snd d)) JNull /\
  sole_writer events "pass_end_location" 0 "pass_end_x" /\
  sole_writer events "pass_end_location" 1 "pass_end_y".
Proof.
  intros He Hk Hloc Hv Hd Hs _ Ht.
  split; [|split; [apply pass_end_x_writer | apply pass_end_y_writer]].
  rewrite columns_json_normalize in Hk.
  assert (Hcol : In (underscore k) (location_columns (renamed events)))
    by (now apply In_location_columns).
  assert (Hr : r < length events) by (apply nth_error_Some; congruence).
  apply (derived_value _ _ _ Ht (underscore k) d); auto.
  - apply derived_not_removed; auto.
  - unfold coordinate.
    destruct (series_get_renamed events r e k He Hk) as [-> | [vs ->]];
      [|reflexivity].
    unfold get_or_nan. unfold field in Hv.
    destruct (dict_get _ _) as [[]|]; (reflexivity || discriminate).
Qed.

Lemma null_safety_witness :
  exists t,
    flatten [Examples.pass_60_40; Examples.shot] columns_to_remove = Ok t /\
    record_has t 1 "pass_end_x" JNull /\ record_has t 1 "pass_end_y" JNull.
Proof.
  eexists. split; [vm_compute; reflexivity|].
  split.
  - apply (null_safety [Examples.pass_60_40; Examples.shot]
             "pass.end_location" 1 Examples.shot (0, "x")).
    + reflexivity.
    + vm_compute. auto.
    + reflexivity.
    + reflexivity.
    + simpl. auto.
    + intros col' d' H. vm_compute in H. destruct H as [<- | []].
      intros [<- | [<- | []]]; vm_compute; intros E;
        [split; reflexivity | discriminate E].
    + reflexivity.
    + vm_compute. reflexivity.
  - apply (null_safety [Examples.pass_60_40; Examples.shot]
             "pass.end_location" 1 Examples.shot (1, "y")).
    + reflexivity.
    + vm_compute. auto.
    + reflexivity.
    + reflexivity.
    + simpl. auto.
    + intros col' d' H. vm_compute in H. destruct H as [<- | []].
      intros [<- | [<- | []]]; vm_compute; intros E;
        [discriminate E | split; reflexivity].
    + reflexivity.
    + vm_compute. reflexivity.
Defined.

(** C5, as stated, fails when [shot_xg] is also the name derived from a
    location column: the assignment [df[new_col] = ...] overwrites the
    column, and no [shot_xg] column is null in the row that lacks
    [shot.xg]. *)
Lemma column_union_overwritten :
  sole_leaf Examples.shot_xg_half "shot.xg" (JNum (1 # 2)%Q) /\
  no_leaf Examples.shot_locationg "shot.xg" /\
  stored_exactly (JNum (1 # 2)%Q) = true /\
  exists t,
    flatten [Examples.shot_xg_half; Examples.shot_locationg]
            columns_to_remove = Ok t /\
    record t 0 = [("shot_xg", JNull); ("shot_yg", JNull)] /\
    record t 1 = [("shot_xg", Examples.num 1); ("shot_yg", Examples.num 2)] /\
    ~ record_shows t 1 "shot_xg" JNull.
Proof.
  split; [|split; [|split]].
  - split; [vm_compute; auto|].
    intros v' H. vm_compute in H. destruct H as [H | []]. congruence.
  - intros v H. vm_compute in H. destruct H as [H | []]. discriminate H.
  - reflexivity.
  - eexists. split; [vm_compute; reflexivity|].
    split; [reflexivity|]. split; [reflexivity|].
    intros (vs & [H | [H | []]] & Hv);
      [injection H as <-; discriminate Hv | discriminate H].
Qed.

(** C5, amended: when no location column has [shot_xg] as a derived name,
    and one event has a leaf at [shot.xg] and another has none, the table
    has a [shot_xg] column that is null in the row of the event without
    the leaf; in the row of the event that has [shot.xg] as its one leaf
    there it holds the value, when that is a null, a boolean, a string or a
    number that [float64] holds exactly (the column has a missing entry, so
    pandas stores its numbers as [float64]).  In general the columns of the
    normalised frame are the dotted paths of the leaves of all the events,
    and every path whose underscore name has no [location] in it, is not
    removed and is not a derived name has a column of that name in the
    table which is null in the row of an event without a leaf at the path
    and holds such a value of the one leaf of the event there. *)
Theorem column_union events r r' e e' t :
  nth_error events r = Some e ->
  nth_error events r' = Some e' ->
  (exists v, In ("shot.xg", v) (leaves_of e)) ->
  no_leaf e' "shot.xg" ->
  not_derived events "shot_xg" ->
  flatten events columns_to_remove = Ok t ->
  (exists vs, In ("shot_xg", vs) (cols t) /\
     nth_error vs r' = Some JNull /\
     forall v, sole_leaf e "shot.xg" v -> stored_exactly v = true ->
               nth_error vs r = Some v) /\
  (forall k, In k (columns (json_normalize events)) <->
             exists e0 v0, In e0 events /\ In (k, v0) (leaves_of e0)) /\
  (forall k,
     In k (columns (json_normalize events)) ->
     Str.contains "location" (underscore k) = false ->
     ~ In (underscore k) columns_to_remove ->
     not_derived events (underscore k) ->
     exists vs, In (underscore k, vs) (cols t) /\
       forall r0 e0, nth_error events r0 = Some e0 ->
         (no_leaf e0 k -> nth_error vs r0 = Some JNull) /\
         (forall v0, sole_leaf e0 k v0 -> stored_exactly v0 = true ->
                     nth_error vs r0 = Some v0)).
Proof.
  intros He He' Hv Hv' Hn Ht.
  assert (Hcols : forall k, In k (columns (json_normalize events)) <->
            exists e0 v0, In e0 events /\ In (k, v0) (leaves_of e0)).
  { intros k. rewrite columns_json_normalize, union_keys_In. unfold records.
    split.
    - intros (d & Hin & Hkd). apply in_map_iff in Hin as (e0 & <- & Hin).
      apply LeafFacts.keys_normalised in Hkd as [v0 Hv0]. exists e0, v0. auto.
    - intros (e0 & v0 & Hin & Hf). exists (_normalise_json_ordered e0).
      split; [now apply in_map|]. apply LeafFacts.keys_normalised. eauto. }
  assert (Hrows : forall k vs, vs = map (get_or_nan k) (records events) ->
            forall r0 e0, nth_error events r0 = Some e0 ->
              (no_leaf e0 k -> nth_error vs r0 = Some JNull) /\
              (forall v0, sole_leaf e0 k v0 -> stored_exactly v0 = true ->
                          nth_error vs r0 = Some v0)).
  { intros k vs -> r0 e0 H0. rewrite (nth_records _ _ _ _ H0).
    unfold get_or_nan. split.
    - intros Hno. apply LeafFacts.field_no_leaf in Hno.
      unfold field in Hno. now rewrite Hno.
    - intros v0 Hs _. apply LeafFacts.field_sole_leaf in Hs.
      unfold field in Hs. now rewrite Hs. }
  assert (Hk : In "shot.xg" (columns (json_normalize events))).
  { apply Hcols. destruct Hv as [v Hv]. exists e, v.
    split; [eapply nth_error_In; eauto | exact Hv]. }
  assert (Hd : ~ In "shot_xg" columns_to_remove)
    by (intros [H | [H | [H | []]]]; discriminate).
  split; [|split; [exact Hcols|]].
  - eexists. split.
    + exact (column_backfilled _ _ _ Ht "shot.xg" Hk eq_refl Hd Hn).
    + split.
      * exact (proj1 (Hrows "shot.xg" _ eq_refl r' e' He') Hv').
      * exact (proj2 (Hrows "shot.xg" _ eq_refl r e He)).
  - intros k H1 H2 H3 H4. eexists. split.
    + exact (column_backfilled _ _ _ Ht k H1 H2 H3 H4).
    + exact (Hrows k _ eq_refl).
Qed.

Lemma column_union_witness :
  exists t,
    flatten [Examples.shot_xg_half; Examples.shot] columns_to_remove = Ok t /\
    exists vs, In ("shot_xg", vs) (cols t) /\
      nth_error vs 1 = Some JNull /\ nth_error vs 0 = Some (JNum (1 # 2)%Q).
Proof.
  eexists. split; [vm_compute; reflexivity|].
  destruct (column_union [Examples.shot_xg_half; Examples.shot] 0 1
              Examples.shot_xg_half Examples.shot
              {| index := 2;
                 cols := [("shot_xg", [JNum (1 # 2)%Q; JNull]);
                          ("type_name", [JNull; JStr "Shot"])] |})
    as ((vs & Hin & Hnull & Hval) & _).
  - reflexivity.
  - reflexivity.
  - exists (JNum (1 # 2)%Q). vm_compute. auto.
  - intros v H. vm_compute in H. destruct H as [H | []]. discriminate H.
  - intros col d H. vm_compute in H. destruct H.
  - vm_compute. reflexivity.
  - exists vs. split; [exact Hin|]. split; [exact Hnull|].
    apply Hval; [|reflexivity].
    split; [vm_compute; auto|].
    intros v' H. vm_compute in H. destruct H as [H | []]. congruence.
Defined.

(** C6, as stated, fails when the nested content of a dropped name is a
    mapping: [json_normalize] flattens it into columns whose names start
    with the dropped name, and the filter compares whole names. *)
Lemma drop_column_prefix_kept :
  In "tactics_lineup" columns_to_remove /\
  exists t,
    flatten [Examples.tactics_formation] columns_to_remove = Ok t /\
    columns t = ["tactics_lineup_formation"] /\
    derived_from "tactics_lineup" "tactics_lineup_formation" = true.
Proof.
  split; [now left|].
  eexists. split; [vm_compute; reflexivity|]. split; reflexivity.
Qed.

(** C6, amended: no column of the table is named by an element of
    [dropColumns]. *)
Theorem drop_column_enforced events dropColumns name t :
  In name dropColumns ->
  flatten events dropColumns = Ok t ->
  ~ In name (columns t).
Proof.
  intros Hn Ht H. apply (table_column_name _ _ _ Ht) in H as [_ H]. auto.
Qed.

Lemma drop_column_enforced_witness :
  exists t,
    flatten [Examples.tactics_roster] columns_to_remove = Ok t /\
    columns t = ["minute"] /\
    ~ In "tactics_lineup" (columns t).
Proof.
  eexists. split; [vm_compute; reflexivity|]. split; [reflexivity|].
  apply (drop_column_enforced [Examples.tactics_roster] columns_to_remove
           "tactics_lineup").
  - now left.
  - vm_compute. reflexivity.
Defined.

(** C7: the transformation is a function of the events alone and leaves
    them as they are.  A run of the cells does not change what the source
    serves; run again on the state it left, it leaves the same state, the
    same table and the same outcome; two runs from states that agree on
    the source end with the same table and outcome; and the table is the
    one [flatten] computes from the events. *)
Theorem flatten_repeatable (st : Notebook.state) :
  let st1 := fst (Notebook.run_all st) in
  let r1 := snd (Notebook.run_all st) in
  Notebook.source st1 = Notebook.source st /\
  Notebook.run_all st1 = (st1, r1) /\
  (forall st', Notebook.source st' = Notebook.source st ->
     snd (Notebook.run_all st') = r1 /\
     Notebook.df (fst (Notebook.run_all st')) = Notebook.df st1) /\
  match r1 with
  | None => flatten (concat (Notebook.source st)) columns_to_remove
            = Ok (Notebook.df st1)
  | Some e => flatten (concat (Notebook.source st)) columns_to_remove = Err e
  end.
Proof.
  cbv zeta. rewrite !NotebookFacts.run_all_outcome.
  pose proof (NotebookFacts.outcome_flatten (Notebook.source st)
                (Notebook.columns_to_remove_var st)) as Hf.
  destruct (NotebookFacts.outcome_cases (Notebook.source st))
    as [(d & e & H) | (d & H)].
  - rewrite H in *. cbn [fst snd Notebook.source Notebook.df] in *.
    split; [reflexivity|]. split; [|split; [|exact Hf]].
    + cbn [Notebook.source Notebook.columns_to_remove_var]. apply H.
    + intros st' Hs. rewrite NotebookFacts.run_all_outcome, Hs, H.
      split; reflexivity.
  - rewrite H in *. cbn [fst snd Notebook.source Notebook.df] in *.
    split; [reflexivity|]. split; [|split; [|exact Hf]].
    + cbn [Notebook.source Notebook.columns_to_remove_var]. apply H.
    + intros st' Hs. rewrite NotebookFacts.run_all_outcome, Hs, H.
      split; reflexivity.
Qed.

(** C8, as stated, fails for a scalar under a name that contains
    [location]: the column is chosen by its name, the lambda returns
    [None] for a value that is not a list, and the column itself is taken
    out; the value is in no column of the table.  It fails for a field
    whose name is the name derived from a location column: the assignment
    overwrites it.  And it fails for a leaf whose dotted path another leaf
    of the event has: [json_normalize] keeps one of the two. *)
Lemma location_scalar_lost :
  (sole_leaf Examples.team_paris "team.location" (JStr "Paris") /\
   ~ In "team_location" columns_to_remove /\
   exists t,
     flatten [Examples.team_paris] columns_to_remove = Ok t /\
     record t 0 = [("team_name", JStr "France");
                   ("team_x", JNull); ("team_y", JNull)] /\
     forall name, ~ record_shows t 0 name (JStr "Paris")) /\
  (sole_leaf Examples.pass_and_x "pass_end_x" (Examples.num 7) /\
   exists t,
     flatten [Examples.pass_and_x] columns_to_remove = Ok t /\
     record t 0 = [("pass_end_x", Examples.num 1);
                   ("pass_end_y", Examples.num 2)] /\
     forall name, ~ record_shows t 0 name (Examples.num 7)) /\
  (In ("a.b", Examples.num 7) (leaves_of Examples.dotted_key) /\
   exists t,
     flatten [Examples.dotted_key] columns_to_remove = Ok t /\
     record t 0 = [("a_b", Examples.num 1)] /\
     forall name, ~ record_shows t 0 name (Examples.num 7)).
Proof.
  split; [|split].
  - split; [|split].
    + split; [vm_compute; auto|].
      intros v' H. vm_compute in H. destruct H as [H | [H | []]]; congruence.
    + intros [H | [H | [H | []]]]; discriminate.
    + eexists. split; [vm_compute; reflexivity|]. split; [reflexivity|].
      intros name (vs & [H | [H | [H | []]]] & Hv);
        injection H as _ <-; discriminate Hv.
  - split.
    + split; [vm_compute; auto|].
      intros v' H. vm_compute in H.
      destruct H as [H | [H | []]]; [discriminate H|].
      injection H as <-. reflexivity.
    + eexists. split; [vm_compute; reflexivity|]. split; [reflexivity|].
      intros name (vs & [H | [H | []]] & Hv);
        injection H as _ <-; discriminate Hv.
  - split; [vm_compute; auto|].
    eexists. split; [vm_compute; reflexivity|]. split; [reflexivity|].
    intros name (vs & [H | []] & Hv). injection H as _ <-. discriminate Hv.
Qed.

(** C8, amended: a leaf of an event that is alone at its dotted path and
    is a null, a boolean, a string or a number that [float64] holds exactly
    keeps its value in the table, under its underscore name, when the name
    does not contain [location], is not in [dropColumns] and is not a name
    derived from a location column.  (Of a number the value is kept, not
    the type: pandas stores a column of integers that has a missing entry
    as [float64].) *)
Theorem data_preserved events dropColumns r e k v t :
  nth_error events r = Some e ->
  sole_leaf e k v ->
  stored_exactly v = true ->
  Str.contains "location" (underscore k) = false ->
  ~ In (underscore k) dropColumns ->
  not_derived events (underscore k) ->
  flatten events dropColumns = Ok t ->
  record_shows t r (underscore k) v.
Proof.
  intros He Hf _ Hl Hd Hn Ht. apply LeafFacts.field_sole_leaf in Hf.
  assert (Hk : In k (columns (json_normalize events))).
  { rewrite columns_json_normalize. eapply field_In_union_keys; eauto. }
  eexists. split.
  - exact (column_backfilled _ _ _ Ht k Hk Hl Hd Hn).
  - rewrite (nth_records _ _ _ _ He).
    unfold get_or_nan. unfold field in Hf. now rewrite Hf.
Qed.

Lemma data_preserved_witness :
  exists t,
    flatten [Examples.pass_10_20] columns_to_remove = Ok t /\
    record_shows t 0 "type_name" (JStr "Pass").
Proof.
  eexists. split; [vm_compute; reflexivity|].
  apply (data_preserved [Examples.pass_10_20] columns_to_remove 0
           Examples.pass_10_20 "type.name").
  - reflexivity.
  - split; [vm_compute; auto|].
    intros v' H. vm_compute in H. destruct H as [H | [H | []]]; congruence.
  - reflexivity.
  - reflexivity.
  - intros [H | [H | [H | []]]]; discriminate.
  - intros col d H. vm_compute in H. destruct H as [<- | []].
    intros [<- | [<- | []]]; vm_compute; discriminate.
  - vm_compute. reflexivity.
Defined.






(** ** Further properties of the notebook *)

Module ReplaceFacts.
Import Str.
Local Open Scope string_scope.

Lemma has_char_app ch a b :
  has_char ch (a ++ b) = has_char ch a || has_char ch b.
Proof.
  induction a as [|c a IH]; simpl; [reflexivity|].
  now rewrite IH, orb_assoc.
Qed.

(** [ch in s] for a one-character string. *)
Lemma contains_char ch s : contains (String ch EmptyString) s = has_char ch s.
Proof.
  induction s as [|c s IH]; [reflexivity|].
  cbn [contains startswith has_char]. rewrite IH.
  rewrite andb_true_r, (Ascii.eqb_sym ch c). reflexivity.
Qed.

(** A character that is neither in the string nor in the replacement is
    not in the result. *)
Lemma has_char_replace_from ch old new : forall s k,
  has_char ch new = false ->
  has_char ch s = false ->
  has_char ch (replace_from k old new s) = false.
Proof.
  induction s as [|c s IH]; intros k Hn Hs; [reflexivity|].
  simpl in Hs. apply orb_false_iff in Hs as [Hc Hs].
  destruct k as [|k]; cbn [replace_from]; [|now apply IH].
  destruct (startswith old (String c s)).
  - rewrite has_char_app, Hn. now apply IH.
  - cbn [has_char]. rewrite Hc. now apply IH.
Qed.

(** Where [old] does not occur, nothing is replaced. *)
Lemma replace_absent old new : forall s,
  contains old s = false -> replace s old new = s.
Proof.
  unfold replace. induction s as [|c s IH]; intros H; [reflexivity|].
  cbn [contains] in H. apply orb_false_iff in H as [Hs H].
  cbn [replace_from]. rewrite Hs. now rewrite IH.
Qed.

Lemma underscore_no_dot k : contains "." (replace k "." "_") = false.
Proof. apply StrFacts.contains_replace; (reflexivity || discriminate). Qed.

Lemma derived_no_dot col dimension :
  dimension = "x" \/ dimension = "y" ->
  contains "." col = false ->
  contains "." (replace col "location" dimension) = false.
Proof.
  intros Hd H. rewrite contains_char in *.
  apply has_char_replace_from; [|exact H].
  destruct Hd as [-> | ->]; reflexivity.
Qed.

End ReplaceFacts.

Lemma frame_eq df1 df2 :
  index df1 = index df2 -> cols df1 = cols df2 -> df1 = df2.
Proof. destruct df1, df2; simpl; congruence. Qed.

Lemma rectangular_renamed events : rectangular (renamed events).
Proof.
  intros c Hc. rewrite cols_renamed in Hc.
  apply in_map_iff in Hc as (k & <- & _). cbn [snd].
  rewrite index_renamed. unfold records. now rewrite !length_map.
Qed.

Section TableFacts.

Variables (events : list raw_event) (dropColumns : list string).
Variable t : DataFrame.
Hypothesis flattened : flatten events dropColumns = Ok t.

(** A column of the table is a column of the renamed frame or was written
    by the loop from the values the lambda returned. *)
Lemma table_column_origin c :
  In c (cols t) ->
  In c (cols (renamed events)) \/
  exists col d vs,
    In col (location_columns (renamed events)) /\ In d dimensions /\
    c = (Str.replace col "location" (snd d), vs) /\
    apply_rows (coordinate col (fst d)) (renamed events) = Ok vs.
Proof.
  intros Hc.
  destruct (flatten_ok _ _ _ flattened) as (df1 & Ha & _ & Hcols).
  destruct (proj1 (Hcols c) Hc) as (Hc1 & _).
  destruct (assign_cols (renamed events) _ _ _ _
              (well_named_assignments _) (same_locations_refl _) Ha c Hc1)
    as [H0 | (col & i & n & vs & Hw & -> & Hvs)]; [now left|].
  apply In_assignments in Hw as (Hcol & d & Hd & -> & ->).
  right. exists col, d, vs. auto.
Qed.

Lemma table_rectangular : rectangular t.
Proof.
  intros c Hc.
  destruct (flatten_ok _ _ _ flattened) as (_ & _ & Hi & _). rewrite Hi.
  destruct (table_column_origin c Hc) as [H | (col & d & vs & _ & _ & -> & Hvs)].
  - rewrite (rectangular_renamed events c H). apply index_renamed.
  - cbn [snd]. apply apply_rows_ok in Hvs as [-> _]. apply index_renamed.
Qed.

Lemma table_no_dot l : In l (columns t) -> Str.contains "." l = false.
Proof.
  intros Hl. apply In_columns in Hl as [vs Hl].
  assert (H0 : forall c, In c (columns (renamed events)) ->
                 Str.contains "." c = false).
  { intros c Hc. rewrite columns_renamed in Hc.
    apply in_map_iff in Hc as (k & <- & _).
    apply ReplaceFacts.underscore_no_dot. }
  destruct (table_column_origin _ Hl) as [H | (col & d & vs' & Hc & Hd & E & _)].
  - apply H0. unfold columns. now apply (in_map fst) in H.
  - injection E as -> _. apply ReplaceFacts.derived_no_dot.
    + simpl in Hd. destruct Hd as [<- | [<- | []]]; auto.
    + apply H0. apply filter_In in Hc. tauto.
Qed.

End TableFacts.




(** X3: the table has one row per event and every one of its columns has
    one cell per row. *)
Theorem one_row_per_event events dropColumns t :
  flatten events dropColumns = Ok t ->
  index t = length events /\ rectangular t.
Proof.
  intros Ht. split.
  - destruct (flatten_ok _ _ _ Ht) as (_ & _ & Hi & _). exact Hi.
  - exact (table_rectangular _ _ _ Ht).
Qed.

Lemma one_row_per_event_witness :
  exists t,
    flatten [Examples.pass_10_20; Examples.shot] columns_to_remove = Ok t /\
    index t = 2 /\ rectangular t.
Proof.
  eexists. split; [vm_compute; reflexivity|].
  apply (one_row_per_event [Examples.pass_10_20; Examples.shot]
           columns_to_remove).
  vm_compute. reflexivity.
Defined.



(** X5: no column name of the table contains a period, the character the
    renaming cell is there to remove: neither the renamed names nor the
    names the split derives from them. *)
Theorem no_period_in_names events dropColumns t name :
  flatten events dropColumns = Ok t ->
  In name (columns t) ->
  Str.contains "." name = false.
Proof. intros Ht. exact (table_no_dot _ _ _ Ht name). Qed.

Lemma no_period_in_names_witness :
  exists t,
    flatten [Examples.pass_10_20] columns_to_remove = Ok t /\
    In "pass_end_x" (columns t) /\
    Str.contains "." "pass_end_x" = false.
Proof.
  eexists. split; [vm_compute; reflexivity|]. split; [simpl; auto|].
  eapply (no_period_in_names [Examples.pass_10_20] columns_to_remove).
  - vm_compute. reflexivity.
  - simpl. auto.
Defined.

(** *** Column names and their order *)

Lemma columns_setitem_add_key df n vs :
  columns (setitem df n vs) = add_key (columns df) n.
Proof.
  unfold columns, setitem, add_key; simpl.
  fold (columns df). destruct (mem n (columns df)).
  - rewrite map_map. apply map_ext. intros c. unfold has_label.
    destruct (String.eqb_spec (fst c) n); simpl; congruence.
  - now rewrite map_app.
Qed.

Lemma assign_columns_fold work : forall df df',
  assign work df = (df', None) ->
  columns df' = fold_left add_key (map (fun w => snd w) work) (columns df).
Proof.
  induction work as [|[[col i] n] rest IH]; intros df df' H; simpl in H.
  - now injection H as <-.
  - destruct (apply_rows (coordinate col i) df) as [vs|e]; [|discriminate].
    rewrite (IH _ _ H), columns_setitem_add_key. reflexivity.
Qed.

Lemma filter_none {A : Type} (p : A -> bool) l :
  (forall x, In x l -> p x = false) -> filter p l = [].
Proof.
  induction l as [|a l IH]; intros H; simpl; [reflexivity|].
  rewrite (H a) by (now left). apply IH. intros x Hx. apply H. now right.
Qed.

Lemma filter_all {A : Type} (p : A -> bool) l :
  (forall x, In x l -> p x = true) -> filter p l = l.
Proof.
  induction l as [|a l IH]; intros H; simpl; [reflexivity|].
  rewrite (H a) by (now left). f_equal. apply IH. intros x Hx. apply H. now right.
Qed.

Lemma filter_and {A : Type} (p q : A -> bool) l :
  filter q (filter p l) = filter (fun x => p x && q x) l.
Proof.
  induction l as [|a l IH]; simpl; [reflexivity|].
  destruct (p a); simpl; [destruct (q a)|]; now rewrite IH.
Qed.

Lemma map_fst_filter {B : Type} (p : string -> bool) (l : list (string * B)) :
  map fst (filter (fun c => p (fst c)) l) = filter p (map fst l).
Proof.
  induction l as [|a l IH]; simpl; [reflexivity|].
  destruct (p (fst a)); simpl; now rewrite IH.
Qed.

(** With distinct labels, asking for labels of the frame in their order
    gives the columns that carry them, once each. *)
Lemma concat_labelled (p : string -> bool) : forall cs : list (string * list json),
  NoDup (map fst cs) ->
  concat (map (fun l => filter (has_label l) cs) (filter p (map fst cs)))
  = filter (fun c => p (fst c)) cs.
Proof.
  induction cs as [|c cs IH]; intros Hnd; [reflexivity|].
  inversion Hnd as [|? ? Hc Hnd']; subst.
  assert (Htail : map (fun l => filter (has_label l) (c :: cs))
                      (filter p (map fst cs))
                  = map (fun l => filter (has_label l) cs)
                        (filter p (map fst cs))).
  { apply map_ext_in. intros l Hl. apply filter_In in Hl as [Hl _].
    simpl. unfold has_label at 1.
    destruct (String.eqb_spec (fst c) l); [subst; contradiction | reflexivity]. }
  assert (Hhead : filter (has_label (fst c)) (c :: cs) = [c]).
  { simpl. unfold has_label at 1. rewrite String.eqb_refl. f_equal.
    apply filter_none. intros x Hx. unfold has_label.
    apply String.eqb_neq. intros E. apply Hc. rewrite <- E.
    now apply in_map. }
  assert (EL : filter p (map fst (c :: cs))
               = if p (fst c) then fst c :: filter p (map fst cs)
                 else filter p (map fst cs)) by reflexivity.
  assert (ER : filter (fun c0 => p (fst c0)) (c :: cs)
               = if p (fst c) then c :: filter (fun c0 => p (fst c0)) cs
                 else filter (fun c0 => p (fst c0)) cs) by reflexivity.
  rewrite EL, ER. destruct (p (fst c)).
  - rewrite map_cons, concat_cons, Hhead, Htail, (IH Hnd'). reflexivity.
  - rewrite Htail. exact (IH Hnd').
Qed.

Lemma getitem_filter df (p : string -> bool) :
  NoDup (columns df) ->
  getitem df (filter p (columns df))
  = Ok {| index := index df;
          cols := filter (fun c => p (fst c)) (cols df) |}.
Proof.
  intros Hnd. unfold getitem.
  rewrite traverse_ext with (g := fun l => Ok (labelled df l)).
  - rewrite traverse_pure. simpl. do 2 f_equal.
    apply concat_labelled. exact Hnd.
  - intros l Hl. apply filter_In in Hl as [Hl _].
    destruct (labelled df l) eqn:E; [|reflexivity].
    apply labelled_nil in E. contradiction.
Qed.

(** With distinct labels the filter cell keeps the columns whose name is
    not listed, in their order. *)
Lemma without_filter names df :
  NoDup (columns df) ->
  without names df
  = Ok {| index := index df;
          cols := filter (fun c => negb (mem (fst c) names)) (cols df) |}.
Proof.
  intros Hnd. unfold without.
  exact (getitem_filter df (fun c => negb (mem c names)) Hnd).
Qed.

Lemma without_nothing names df :
  NoDup (columns df) ->
  (forall l, In l (columns df) -> ~ In l names) ->
  without names df = Ok df.
Proof.
  intros Hnd H. rewrite (without_filter names df Hnd). f_equal.
  apply frame_eq; [reflexivity|]. simpl. apply filter_all.
  intros c Hc. apply negb_true_iff, mem_not_In, H.
  unfold columns. now apply in_map.
Qed.

Section DistinctNames.

Variables (events : list raw_event) (dropColumns : list string).
Variable t : DataFrame.
Hypothesis distinct : NoDup (columns (renamed events)).
Hypothesis flattened : flatten events dropColumns = Ok t.

Lemma table_columns_spec :
  columns t = table_columns (renamed events) dropColumns /\
  NoDup (columns t).
Proof.
  pose proof flattened as Ht. rewrite flatten_assign in Ht.
  destruct (assign _ _) as [df1 [e|]] eqn:Ha; [discriminate|].
  pose proof (assign_columns_fold _ _ _ Ha) as Hcols.
  assert (Hnd1 : NoDup (columns df1))
    by (rewrite Hcols; now apply fold_add_key_NoDup).
  rewrite (without_filter _ df1 Hnd1) in Ht. simpl in Ht.
  set (t1 := {| index := index df1;
                cols := filter (fun c => negb (mem (fst c)
                          (location_columns (renamed events)))) (cols df1) |})
    in Ht.
  assert (Hc1 : columns t1
                = filter (fun c => negb (mem c (location_columns (renamed events))))
                         (columns df1))
    by (exact (map_fst_filter
                 (fun c => negb (mem c (location_columns (renamed events))))
                 (cols df1))).
  assert (Hnd2 : NoDup (columns t1))
    by (rewrite Hc1; now apply NoDup_filter).
  rewrite (without_filter _ t1 Hnd2) in Ht. injection Ht as <-.
  assert (E : columns {| index := index t1;
                         cols := filter (fun c => negb (mem (fst c) dropColumns))
                                        (cols t1) |}
              = table_columns (renamed events) dropColumns).
  { change (map fst (filter (fun c => negb (mem (fst c) dropColumns)) (cols t1))
            = table_columns (renamed events) dropColumns).
    rewrite (map_fst_filter (fun c => negb (mem c dropColumns)) (cols t1)).
    fold (columns t1). rewrite Hc1, filter_and. unfold table_columns.
    rewrite <- Hcols. apply filter_ext_in. intros l Hl.
    apply In_columns in Hl as [vs Hl].
    pose proof (mem_location_columns _ _ _ _ Ha Hl) as Em.
    cbn [fst] in Em. now rewrite Em. }
  assert (G : NoDup (table_columns (renamed events) dropColumns))
    by (unfold table_columns; apply NoDup_filter;
        now apply fold_add_key_NoDup).
  split; [exact E | exact (eq_ind_r (@NoDup string) G E)].
Qed.

End DistinctNames.

(** X6: the renaming cell can be run again: renaming a renamed frame
    changes nothing, since no name of it has a period left. *)
Theorem rename_idempotent df :
  rename_columns (rename_columns df) = rename_columns df.
Proof.
  apply frame_eq; [reflexivity|].
  rewrite (cols_rename_columns (rename_columns df)), cols_rename_columns.
  rewrite map_map. apply map_ext. intros c. cbn [fst snd]. f_equal.
  unfold underscore. apply ReplaceFacts.replace_absent.
  apply ReplaceFacts.underscore_no_dot.
Qed.

(** X7: when the renamed names are distinct, the names of the table are
    distinct too, and they are, in this order: the columns of the renamed
    frame, then the derived names that are new in the order in which the
    loop writes them, without the names that contain [location] and the
    names to drop. *)
Theorem table_column_order events dropColumns t :
  NoDup (columns (renamed events)) ->
  flatten events dropColumns = Ok t ->
  columns t = table_columns (renamed events) dropColumns /\
  NoDup (columns t).
Proof. intros Hnd Ht. exact (table_columns_spec _ _ _ Hnd Ht). Qed.

Lemma table_column_order_witness :
  exists t,
    flatten [Examples.pass_10_20; Examples.shot_xg_half] columns_to_remove
      = Ok t /\
    columns t = ["type_name"; "shot_xg"; "pass_end_x"; "pass_end_y"] /\
    NoDup (columns t).
Proof.
  eexists. split; [vm_compute; reflexivity|].
  destruct (table_column_order
              [Examples.pass_10_20; Examples.shot_xg_half] columns_to_remove
              {| index := 2;
                 cols := [("type_name", [JStr "Pass"; JNull]);
                          ("shot_xg", [JNull; JNum (1 # 2)%Q]);
                          ("pass_end_x", [JNum (10 # 1)%Q; JNull]);
                          ("pass_end_y", [JNum (20 # 1)%Q; JNull])] |})
    as [H1 H2].
  - vm_compute. repeat constructor; simpl; intuition discriminate.
  - vm_compute. reflexivity.
  - split; [reflexivity | exact H2].
Defined.

(** X8: when the renamed names are distinct, the cleaning cells leave
    their own result as it is: run on the table, the renaming, the split
    and the two filters return the same table. *)
Theorem clean_idempotent events dropColumns t :
  NoDup (columns (renamed events)) ->
  flatten events dropColumns = Ok t ->
  flatten events dropColumns = clean (json_normalize events) dropColumns /\
  clean t dropColumns = Ok t.
Proof.
  intros Hnd Ht. split; [reflexivity|].
  destruct (table_columns_spec _ _ _ Hnd Ht) as [_ Hndt].
  assert (Hren : rename_columns t = t).
  { apply frame_eq; [reflexivity|]. rewrite cols_rename_columns.
    rewrite <- (map_id (cols t)) at 2. apply map_ext_in.
    intros [l vs] Hc. cbn [fst snd]. f_equal.
    unfold underscore. apply ReplaceFacts.replace_absent.
    apply (table_no_dot _ _ _ Ht). apply In_columns. eauto. }
  assert (Hloc : location_columns t = []).
  { unfold location_columns. apply filter_none. intros l Hl.
    now apply (table_column_name _ _ _ Ht) in Hl. }
  unfold clean. rewrite Hren, Hloc. cbn [split_locations].
  rewrite (without_nothing [] t Hndt) by (intros l _ []).
  cbn [bind]. apply (without_nothing dropColumns t Hndt).
  intros l Hl. now apply (table_column_name _ _ _ Ht) in Hl.
Qed.

Lemma clean_idempotent_witness :
  exists t,
    flatten [Examples.pass_10_20; Examples.shot_xg_half] columns_to_remove
      = Ok t /\
    clean t columns_to_remove = Ok t.
Proof.
  eexists. split; [vm_compute; reflexivity|].
  apply (clean_idempotent
           [Examples.pass_10_20; Examples.shot_xg_half] columns_to_remove).
  - vm_compute. repeat constructor; simpl; intuition discriminate.
  - vm_compute. reflexivity.
Defined.

(** *** The cells on their own *)

(** X9: the split cell takes nothing away: whether it completes or is
    stopped by an exception, the frame has the rows it had, every column
    name it had, and every location column with the cells it had. *)
Theorem split_takes_nothing_away df df' e :
  split_cell df = (df', e) ->
  index df' = index df /\
  (forall l, In l (columns df) -> In l (columns df')) /\
  (forall c, Str.contains "location" (fst c) = true ->
     (In c (cols df') <-> In c (cols df))).
Proof.
  unfold split_cell. rewrite split_locations_assign. intros H.
  destruct (assign_same df _ _ _ _ (well_named_assignments df)
              (same_locations_refl df) H) as [Hi Hl].
  split; [exact Hi|]. split.
  - intros l Hin. exact (assign_columns _ l _ _ _ H Hin).
  - intros c Hc. specialize (Hl _ Hc).
    split; intros Hin.
    + assert (G : In c (labelled df' (fst c))) by (apply In_labelled; auto).
      rewrite Hl in G. now apply In_labelled in G.
    + assert (G : In c (labelled df (fst c))) by (apply In_labelled; auto).
      rewrite <- Hl in G. now apply In_labelled in G.
Qed.

Lemma split_takes_nothing_away_witness :
  exists df',
    split_cell (renamed [Examples.pass_60_40; Examples.pass_one])
      = (df', Some IndexError) /\
    columns df' = ["pass_end_location"; "pass_end_x"] /\
    index df' = 2.
Proof.
  eexists. split; [vm_compute; reflexivity|]. split; [reflexivity|].
  destruct (split_takes_nothing_away
              (renamed [Examples.pass_60_40; Examples.pass_one])
              {| index := 2;
                 cols := [("pass_end_location",
                           [JList [Examples.num 60; Examples.num 40];
                            JList [Examples.num 1]]);
                          ("pass_end_x", [Examples.num 60; Examples.num 1])] |}
              (Some IndexError)) as [H _].
  - vm_compute. reflexivity.
  - exact H.
Defined.

(** X10: the two filter cells never raise: the labels they ask for are
    labels of the frame.  They keep the rows, and of the columns exactly
    those whose name is not listed, with their cells. *)
Theorem filter_cell_never_raises names df :
  exists t,
    without names df = Ok t /\ index t = index df /\
    forall c, In c (cols t) <-> In c (cols df) /\ ~ In (fst c) names.
Proof.
  destruct (without_ok names df) as (t & Ht & Hi & Hc).
  exists t. split; [exact Ht|]. split; [exact Hi|].
  intros c. rewrite Hc, mem_not_In. reflexivity.
Qed.

(** *** [json_normalize] *)

Module NormalizeFacts.

Lemma flat_nil : flat [].
Proof. intros k v []. Qed.

Lemma flat_dict_set k v d : is_dict v = false -> flat d -> flat (dict_set k v d).
Proof.
  intros Hv. induction d as [|[k' v'] d IH]; intros Hd k0 v0 Hin; simpl in Hin.
  - destruct Hin as [E | []]. now injection E as _ <-.
  - destruct (String.eqb k' k).
    + destruct Hin as [E | Hin]; [now injection E as _ <-|].
      apply (Hd k0 v0). now right.
    + destruct Hin as [E | Hin].
      * apply (Hd k0 v0). now left.
      * apply (IH (fun a b H => Hd a b (or_intror H)) k0 v0 Hin).
Qed.

Lemma flat_dict_update d1 : forall d2, flat d2 -> flat d1 ->
  flat (dict_update d2 d1).
Proof.
  unfold dict_update. induction d1 as [|[k v] d1 IH]; intros d2 H2 H1; [exact H2|].
  simpl. apply IH.
  - apply flat_dict_set; [|exact H2]. apply (H1 k v). now left.
  - intros a b H. apply (H1 a b). now right.
Qed.

(** The walk records values that are not mappings only. *)
Lemma flat_normalise_json : forall data key_string acc,
  flat acc -> flat (_normalise_json data key_string acc).
Proof.
  fix IH 1. intros data key_string acc H.
  destruct data as [| b | q | s | l | items];
    try (apply flat_dict_set; [reflexivity | exact H]).
  simpl. revert acc H.
  induction items as [|[key value] rest IHr]; intros acc H; [exact H|].
  apply IHr. apply IH. exact H.
Qed.

Lemma flat_normalise_json_ordered e : flat (_normalise_json_ordered e).
Proof.
  unfold _normalise_json_ordered. apply flat_dict_update.
  - apply flat_dict_update; [apply flat_nil|].
    intros k v Hin. apply filter_In in Hin as [_ Hin].
    simpl in Hin. now apply negb_true_iff in Hin.
  - apply flat_normalise_json, flat_nil.
Qed.

Lemma dict_get_In_pair k d v : dict_get k d = Some v -> In (k, v) d.
Proof.
  induction d as [|[k' v'] d IH]; simpl; [discriminate|].
  destruct (String.eqb_spec k' k) as [-> | _].
  - intros H. injection H as ->. now left.
  - intros H. right. now apply IH.
Qed.

End NormalizeFacts.

(** X11: [json_normalize] leaves no mapping in a cell: a nested mapping is
    always flattened into columns of its own, at any depth, so what is
    left to take out of the table by hand are lists. *)
Theorem normalize_flattens_mappings events c v :
  In c (cols (json_normalize events)) ->
  In v (snd c) ->
  is_dict v = false.
Proof.
  intros Hc Hv. unfold json_normalize, DataFrame_of_records in Hc.
  simpl in Hc. apply in_map_iff in Hc as (k & <- & _).
  simpl in Hv. apply in_map_iff in Hv as (d & <- & Hd).
  apply in_map_iff in Hd as (e & <- & _).
  unfold get_or_nan.
  destruct (dict_get k (_normalise_json_ordered e)) as [w|] eqn:E;
    [|reflexivity].
  apply NormalizeFacts.dict_get_In_pair in E.
  exact (NormalizeFacts.flat_normalise_json_ordered e k w E).
Qed.

Lemma normalize_flattens_mappings_witness :
  In ("tactics.lineup.formation", [Examples.num 442])
     (cols (json_normalize [Examples.tactics_formation])) /\
  is_dict (Examples.num 442) = false.
Proof.
  split; [vm_compute; auto|].
  apply (normalize_flattens_mappings [Examples.tactics_formation]
           ("tactics.lineup.formation", [Examples.num 442])).
  - vm_compute. auto.
  - simpl. auto.
Defined.

(** *** [parse_data] *)

Lemma traverse_subscript key : forall (ms : list dict) ids,
  traverse (fun m => Fetch.subscript m key) ms = Ok ids ->
  map (dict_get key) ms = map Some ids.
Proof.
  induction ms as [|m ms IH]; intros ids H; simpl in H.
  - now injection H as <-.
  - unfold Fetch.subscript at 1 in H.
    destruct (dict_get key m) as [v|] eqn:E; simpl in H; [|discriminate].
    destruct (traverse _ ms) as [ys|e]; simpl in H; [|discriminate].
    injection H as <-. simpl. now rewrite E, (IH ys eq_refl).
Qed.

Section FetchFacts.

Variable str : json -> string.
Variable get_matches : string -> list dict.
Variable get_events : string -> list raw_event.

(** X12: when a match of the competition has no [match_id], [parse_data]
    stops on a key error, and it has then requested the matches of the
    competition and the events of no match. *)
Theorem missing_match_id competition_id season_id m :
  In m (get_matches (Fetch.comp_url str competition_id season_id)) ->
  dict_get "match_id" m = None ->
  Fetch.parse_data str get_matches get_events competition_id season_id
  = (Err KeyError, [Fetch.comp_url str competition_id season_id]).
Proof.
  intros Hin Hm. unfold Fetch.parse_data.
  destruct (traverse _ _) as [ids|e] eqn:E.
  - apply traverse_subscript in E.
    apply (in_map (dict_get "match_id")) in Hin. rewrite E, Hm in Hin.
    apply in_map_iff in Hin as (x & Hx & _). discriminate.
  - apply traverse_err in E as (x & _ & Hx). unfold Fetch.subscript in Hx.
    destruct (dict_get "match_id" x); [discriminate|]. now injection Hx as <-.
Qed.

(** X13: when every match has a [match_id], [parse_data] requests the
    matches of the competition and then the events of each match once, in
    the order of the matches, and returns the normalised frame of all the
    events answered, one row per event. *)
Theorem one_request_per_match competition_id season_id :
  (forall m, In m (get_matches (Fetch.comp_url str competition_id season_id)) ->
     dict_get "match_id" m <> None) ->
  exists match_ids,
    map (dict_get "match_id")
        (get_matches (Fetch.comp_url str competition_id season_id))
    = map Some match_ids /\
    let responses :=
      map (fun i => get_events (Fetch.match_url str i)) match_ids in
    Fetch.parse_data str get_matches get_events competition_id season_id
    = (Ok (parse_data responses),
       Fetch.comp_url str competition_id season_id
       :: map (Fetch.match_url str) match_ids) /\
    index (parse_data responses)
    = list_sum (map (fun r => length r) responses).
Proof.
  intros Hall.
  destruct (traverse_all_ok (fun m => Fetch.subscript m "match_id")
              (get_matches (Fetch.comp_url str competition_id season_id)))
    as [ids E].
  { intros m Hm. unfold Fetch.subscript.
    destruct (dict_get "match_id" m) eqn:Em; [eauto|]. now apply Hall in Hm. }
  exists ids. split; [now apply traverse_subscript|].
  cbv zeta. split.
  - unfold Fetch.parse_data. rewrite E. unfold parse_data.
    now rewrite map_map.
  - unfold parse_data, json_normalize, DataFrame_of_records. simpl.
    rewrite length_map. apply length_concat.
Qed.

End FetchFacts.

Lemma missing_match_id_witness :
  Fetch.parse_data (fun _ => "7")
    (fun _ => [[("match_id", Examples.num 7)]; [("home", JStr "a")]])
    (fun _ => [Examples.shot]) (Examples.num 43) (Examples.num 3)
  = (Err KeyError,
     [Fetch.comp_url (fun _ => "7") (Examples.num 43) (Examples.num 3)]).
Proof.
  apply (missing_match_id (fun _ => "7")
           (fun _ => [[("match_id", Examples.num 7)]; [("home", JStr "a")]])
           (fun _ => [Examples.shot]) (Examples.num 43) (Examples.num 3)
           [("home", JStr "a")]).
  - simpl. auto.
  - reflexivity.
Defined.

Lemma one_request_per_match_witness :
  exists match_ids,
    map (dict_get "match_id")
        [[("match_id", Examples.num 7)]; [("match_id", Examples.num 8)]]
    = map Some match_ids /\
    length match_ids = 2.
Proof.
  destruct (one_request_per_match (fun _ => "7")
              (fun _ => [[("match_id", Examples.num 7)];
                         [("match_id", Examples.num 8)]])
              (fun _ => [Examples.shot]) (Examples.num 43) (Examples.num 3))
    as (ids & H & _).
  - intros m [<- | [<- | []]]; discriminate.
  - exists ids. split; [exact H|].
    apply (f_equal (@length _)) in H. rewrite !length_map in H.
    simpl in H. congruence.
Defined.

(** *** Running the split cell again *)

Lemma fst_write df c w : fst (write df c w) = fst c.
Proof.
  unfold write, has_label. destruct (String.eqb_spec (fst c) (snd w)); simpl; auto.
Qed.

Lemma written_untouched df work : forall c,
  (forall w, In w work -> snd w <> fst c) -> written df work c = c.
Proof.
  unfold written. induction work as [|w work IH]; intros c H; [reflexivity|].
  simpl. assert (E : write df c w = c).
  { unfold write, has_label. destruct (String.eqb_spec (fst c) (snd w)) as [E|_];
      [|reflexivity]. exfalso. apply (H w); [now left | auto]. }
  rewrite E. apply IH. intros w' Hw'. apply H. now right.
Qed.

(** What the loop leaves in a column that it writes depends on the name of
    the column only. *)
Lemma written_same_label df work : forall c c',
  fst c = fst c' ->
  (exists w, In w work /\ snd w = fst c) ->
  written df work c = written df work c'.
Proof.
  unfold written. induction work as [|w work IH]; intros c c' Hl (w0 & Hin & Hw0);
    [destruct Hin|].
  simpl. destruct (String.eqb_spec (fst c) (snd w)) as [E | E].
  - assert (Ew : write df c w = write df c' w).
    { unfold write, has_label. rewrite <- Hl.
      destruct (String.eqb_spec (fst c) (snd w)); [reflexivity | contradiction]. }
    now rewrite Ew.
  - destruct Hin as [-> | Hin]; [congruence|].
    apply IH.
    + now rewrite !fst_write.
    + exists w0. split; [exact Hin|]. now rewrite fst_write.
Qed.

Lemma filter_fold_add_key (p : string -> bool) ns : forall acc,
  (forall n, In n ns -> p n = false) ->
  filter p (fold_left add_key ns acc) = filter p acc.
Proof.
  induction ns as [|n ns IH]; intros acc H; [reflexivity|].
  simpl. rewrite IH by (intros; apply H; now right).
  unfold add_key. destruct (mem n acc); [reflexivity|].
  rewrite filter_app. simpl. rewrite (H n) by (now left). apply app_nil_r.
Qed.

Section SplitAgain.

Variable df : DataFrame.

(** On a frame that has every name the loop writes, the loop overwrites
    columns and appends none. *)
Lemma assign_present work : forall df0,
  well_named work -> same_locations df0 df ->
  (forall w, In w work -> In (snd w) (columns df0)) ->
  (forall col i n, In (col, i, n) work ->
     exists vs, apply_rows (coordinate col i) df = Ok vs) ->
  assign work df0
  = ({| index := index df0; cols := map (written df work) (cols df0) |}, None).
Proof.
  induction work as [|[[col i] n] rest IH]; intros df0 Hw Hs Hp Hok.
  - simpl. unfold written. simpl. rewrite map_id. now destruct df0.
  - pose proof (Hw col i n (or_introl eq_refl)) as [Hcol Hn].
    destruct (Hok col i n (or_introl eq_refl)) as [vs Hvs].
    cbn [assign]. rewrite (apply_rows_same df0 df col i Hcol Hs), Hvs.
    rewrite IH.
    + f_equal. apply frame_eq; [reflexivity|]. cbn [cols index].
      unfold setitem. cbn [cols].
      assert (Hm : mem n (columns df0) = true)
        by (apply mem_In; apply (Hp (col, i, n)); now left).
      rewrite Hm, map_map. apply map_ext. intros c.
      unfold written. cbn [fold_left]. f_equal.
      unfold write, values_of. cbn [fst snd]. now rewrite Hvs.
    + exact (well_named_tail Hw).
    + now apply same_locations_setitem.
    + intros w Hin. apply columns_setitem. apply Hp. now right.
    + intros c j m Hin. apply (Hok c j m). now right.
Qed.

(** When the loop has completed, every column is as the loop leaves it. *)
Lemma assign_settled work : forall df0 df',
  well_named work -> same_locations df0 df ->
  assign work df0 = (df', None) ->
  forall c, In c (cols df') -> written df work c = c.
Proof.
  induction work as [|[[col i] n] rest IH]; intros df0 df' Hw Hs H c Hc;
    [reflexivity|].
  pose proof (Hw col i n (or_introl eq_refl)) as [Hcol Hn].
  cbn [assign] in H. rewrite (apply_rows_same df0 df col i Hcol Hs) in H.
  destruct (apply_rows (coordinate col i) df) as [vs|e0] eqn:E; [|discriminate].
  pose proof (IH _ _ (well_named_tail Hw)
                (same_locations_setitem _ _ n vs Hn Hs) H) as Hrest.
  unfold written. cbn [fold_left]. fold (written df rest (write df c (col, i, n))).
  unfold write, values_of. cbn [fst snd]. rewrite E.
  destruct (has_label n c) eqn:El; [|now apply Hrest].
  unfold has_label in El. apply String.eqb_eq in El.
  destruct (existsb (fun w => String.eqb (snd w) n) rest) eqn:Ex.
  - apply existsb_exists in Ex as (w & Hin & Ew). apply String.eqb_eq in Ew.
    rewrite (written_same_label df rest (n, vs) c).
    + now apply Hrest.
    + simpl. congruence.
    + exists w. split; [exact Hin | simpl; congruence].
  - assert (Hno : forall w, In w rest -> snd w <> n).
    { intros w Hin Ew.
      assert (existsb (fun w => String.eqb (snd w) n) rest = true).
      { apply existsb_exists. exists w. split; [exact Hin|].
        now apply String.eqb_eq. }
      congruence. }
    rewrite written_untouched by (simpl; exact Hno).
    assert (G : In c (labelled df' n)) by (apply In_labelled; auto).
    rewrite (assign_other rest n _ _ _) with (2 := H) in G.
    + symmetry. now apply labelled_setitem_same in G.
    + intros c0 i0 n0 Hin. apply (Hno (c0, i0, n0) Hin).
Qed.

End SplitAgain.

(** X14: the split cell can be run again: run on the frame that a
    completed run of it has left, it completes and leaves the frame as it
    is. *)
Theorem split_idempotent df df1 :
  split_cell df = (df1, None) ->
  split_cell df1 = (df1, None).
Proof.
  unfold split_cell. rewrite !split_locations_assign. intros H.
  set (work := assignments (location_columns df)) in *.
  assert (Hw : well_named work) by apply well_named_assignments.
  assert (Hloc : location_columns df1 = location_columns df).
  { unfold location_columns. rewrite (assign_columns_fold _ _ _ H).
    apply filter_fold_add_key. intros n Hn.
    apply in_map_iff in Hn as ([[col i] n'] & <- & Hin). simpl.
    apply (Hw col i n' Hin). }
  rewrite Hloc. fold work.
  rewrite (assign_present df work df1 Hw).
  - f_equal. apply frame_eq; [reflexivity|]. cbn [cols].
    rewrite <- (map_id (cols df1)) at 2. apply map_ext_in.
    exact (assign_settled df work df df1 Hw (same_locations_refl df) H).
  - exact (assign_same df work df df1 None Hw (same_locations_refl df) H).
  - intros [[col i] n] Hin. simpl. exact (assign_written work col i n df df1 H Hin).
  - exact (assign_ok df work df df1 Hw (same_locations_refl df) H).
Qed.

Lemma split_idempotent_witness :
  exists df1,
    split_cell (renamed [Examples.pass_10_20; Examples.shot]) = (df1, None) /\
    split_cell df1 = (df1, None).
Proof.
  eexists. split; [vm_compute; reflexivity|].
  apply (split_idempotent (renamed [Examples.pass_10_20; Examples.shot])).
  vm_compute. reflexivity.
Defined.



(** *** The leaves of an event *)

(** X16: the normalised record of an event has exactly the dotted paths of
    the leaves of the event, and every value it has is a leaf at that
    path; a leaf that is alone at its path is the value recorded there, and
    a path without a leaf is not recorded. *)
Theorem normalised_record_leaves e path :
  (In path (map fst (_normalise_json_ordered e)) <->
   exists v, In (path, v) (leaves_of e)) /\
  (forall v, field e path = Some v -> In (path, v) (leaves_of e)) /\
  (forall v, sole_leaf e path v -> field e path = Some v) /\
  (no_leaf e path -> field e path = None).
Proof.
  split; [apply LeafFacts.keys_normalised|].
  split; [|split; [apply LeafFacts.field_sole_leaf
                  | apply LeafFacts.field_no_leaf]].
  intros v H. unfold field in H.
  rewrite LeafFacts.normalise_json_ordered_leaves in H.
  apply LeafFacts.dict_get_pair in H.
  apply LeafFacts.In_leaves_of.
  apply LeafFacts.In_dict_update in H as [H | H].
  - apply LeafFacts.In_dict_update in H as [[] | H]. now left.
  - apply LeafFacts.In_dict_update in H as [[] | H]. now right.
Qed.

Lemma normalised_record_leaves_witness :
  field Examples.pass_10_20 "pass.end_location"
  = Some (JList [JNum (10 # 1)%Q; JNum (20 # 1)%Q]) /\
  field Examples.pass_10_20 "pass" = None.
Proof.
  destruct (normalised_record_leaves Examples.pass_10_20 "pass.end_location")
    as (_ & _ & H1 & _).
  destruct (normalised_record_leaves Examples.pass_10_20 "pass")
    as (_ & _ & _ & H2).
  split.
  - apply H1. split; [vm_compute; auto|].
    intros v' H. vm_compute in H.
    destruct H as [H | [H | []]]; [discriminate H|].
    injection H as <-. reflexivity.
  - apply H2. intros v H. vm_compute in H.
    destruct H as [H | [H | []]]; discriminate H.
Defined.
